(** * pdf-direction-corrector: the rotation-inference engine of [main.py]

    A shallow embedding of the functions of [src/main.py] that decide the
    corrective rotation of a page, and the properties claimed of them.

    Numbers.  The Python code computes on [float].  A finite float is a
    rational number, here [Q]; the functions are embedded with exact
    arithmetic on these rationals, so two numbers are compared with [==].
    The square root [** 0.5] of [calculate_position_similarity] has no
    rational counterpart: it is a parameter of the development, and a theorem
    that needs a property of it says so in a hypothesis.  The absolute
    classifier, whose answer at a threshold depends on the rounding, is also
    embedded with the operations that round as parameters ([Rounded]), and
    run on binary64 with [round_binary64].  Angles and deltas are Python
    [int], here [Z].

    Text.  A Python [str] is a sequence of code points, here [list N];
    [len] is [length]. *)

From Stdlib Require Import ZArith QArith List Bool Lia Lqa.
Import ListNotations.

Local Open Scope Z_scope.
Local Open Scope Q_scope.

(** ** Numbers *)

(** [x < y] on floats, as a boolean test. *)
Definition Qltb (x y : Q) : bool := negb (Qle_bool y x).

(** [x > y]. *)
Definition Qgtb (x y : Q) : bool := Qltb y x.

(** ** Data model *)

(** A bounding box, the 4-element sequence [x0, y0, x1, y1]. *)
Definition BBox : Type := (Q * Q * Q * Q)%type.

(** Two boxes hold the same four numbers. *)
Definition bbox_eq (a b : BBox) : Prop :=
  let '(a0, a1, a2, a3) := a in
  let '(b0, b1, b2, b3) := b in
  a0 == b0 /\ a1 == b1 /\ a2 == b2 /\ a3 == b3.

(** A Python string: its code points. *)
Definition pystr : Type := list N.

(** A position dictionary.  [extract_text_positions] builds it with the keys
    ['text'], ['normalized_x'], ['normalized_y'] and ['original_bbox'];
    [apply_rotation_to_positions] builds it without ['original_bbox'];
    [compare_with_reference] reads an optional key ['current_rotation'].
    A key that may be absent is an [option]. *)
Record Position : Type := mkPosition {
  text : pystr;
  normalized_x : Q;
  normalized_y : Q;
  original_bbox : option BBox;
  current_rotation : option Z
}.

(** ** Coordinate transformer *)

(** [transform_coordinates_to_original(bbox, page_width, page_height, rotation)] *)
Definition transform_coordinates_to_original
    (bbox : BBox) (page_width page_height : Q) (rotation : Z) : BBox :=
  let '(x0, y0, x1, y1) := bbox in
  if (rotation =? 0)%Z then (x0, y0, x1, y1)
  else if (rotation =? 90)%Z then
    (y0, page_width - x1, y1, page_width - x0)
  else if (rotation =? 180)%Z then
    (page_width - x1, page_height - y1, page_width - x0, page_height - y0)
  else if (rotation =? 270)%Z then
    (page_height - y1, x0, page_height - y0, x1)
  else (x0, y0, x1, y1).

(** Modelled from the spec: the forward display rotation of a bounding box,
    which the document layer performs and [main.py] does not contain.  It is
    the point mapping of the spec's section 4.4 ([(x,y)], [(1-y, x)],
    [(1-x, 1-y)], [(y, 1-x)] on the unit square) scaled to the display
    width [W] and height [H] of the rotated page, applied to the two corners
    and re-ordered so that the first corner is again the lower one. *)
Definition rotate_bbox_to_display
    (bbox : BBox) (W H : Q) (rotation : Z) : BBox :=
  let '(x0, y0, x1, y1) := bbox in
  if (rotation =? 0)%Z then (x0, y0, x1, y1)
  else if (rotation =? 90)%Z then (W - y1, x0, W - y0, x1)
  else if (rotation =? 180)%Z then (W - x1, H - y1, W - x0, H - y0)
  else if (rotation =? 270)%Z then (y0, H - x1, y1, H - x0)
  else (x0, y0, x1, y1).

(** ** Exceptions *)

(** A computation that may raise is an [option]: [None] is a raised
    exception, which no function modelled here catches. *)
Definition bind {A B : Type} (m : option A) (k : A -> option B) : option B :=
  match m with
  | Some a => k a
  | None => None
  end.

Notation "x <- m ;; k" := (bind m (fun x => k))
  (at level 61, m at next level, right associativity).

(** [x / y] on floats: division by zero raises [ZeroDivisionError]. *)
Definition py_div (x y : Q) : option Q :=
  if Qeq_bool y 0 then None else Some (x / y).

(** [max(a, b)] of two numbers: the first argument is kept unless the second
    is strictly greater. *)
Definition py_max (a b : Q) : Q := if Qgtb b a then b else a.

(** ** Text *)

(** The code points that [str.strip()] removes (those for which
    [str.isspace] holds). *)
Definition isspace (c : N) : bool :=
  ((9 <=? c) && (c <=? 13) || (28 <=? c) && (c <=? 32) ||
   (c =? 133) || (c =? 160) || (c =? 5760) ||
   (8192 <=? c) && (c <=? 8202) ||
   (c =? 8232) || (c =? 8233) || (c =? 8239) || (c =? 8287) ||
   (c =? 12288))%N.

Fixpoint lstrip (s : pystr) : pystr :=
  match s with
  | [] => []
  | c :: rest => if isspace c then lstrip rest else s
  end.

Definition rstrip (s : pystr) : pystr := rev (lstrip (rev s)).

(** [s.strip()] *)
Definition strip (s : pystr) : pystr := rstrip (lstrip s).

(** ** The page, as the document layer answers for it *)

(** A span of [page.get_text("dict")]. *)
Record Span : Type := mkSpan {
  span_bbox : BBox;
  span_text : pystr
}.

(** A line: its ["spans"]. *)
Definition Line : Type := list Span.

(** A block: a text block has the key ["lines"], an image block has not. *)
Inductive Block : Type :=
| TextBlock (lines : list Line)
| ImageBlock.

(** What the code reads of a page.  The two attribute reads that the code
    wraps in [try] are [option]s: [None] is a read that raises. *)
Record Page : Type := mkPage {
  page_rotation : option Z;          (* page.rotation *)
  rect_width : Q;                    (* page.rect.width *)
  rect_height : Q;                   (* page.rect.height *)
  mediabox : option (Q * Q);         (* page.mediabox .width, .height *)
  blocks : list Block                (* page.get_text("dict")["blocks"] *)
}.

(** ** Position extractor *)

Section Extractor.

Variables page_width page_height original_width original_height : Q.
Variable pdf_rotation : Z.

(** The body of the innermost loop, for the spans of one line;
    [text_positions] is the list appended to. *)
Fixpoint extract_spans (spans : list Span) (text_positions : list Position)
    : option (list Position) :=
  match spans with
  | [] => Some text_positions
  | span :: rest =>
      let bbox := span_bbox span in
      let text := strip (span_text span) in
      if negb (length text =? 0)%nat && (2 <? length text)%nat then
        let original_bbox :=
          transform_coordinates_to_original bbox page_width page_height pdf_rotation in
        let '(b0, b1, b2, b3) := original_bbox in
        normalized_x <- py_div ((b0 + b2) / 2) original_width ;;
        normalized_y <- py_div ((b1 + b3) / 2) original_height ;;
        extract_spans rest
          (text_positions ++
             [mkPosition text normalized_x normalized_y (Some original_bbox) None])
      else extract_spans rest text_positions
  end.

Fixpoint extract_lines (lines : list Line) (text_positions : list Position)
    : option (list Position) :=
  match lines with
  | [] => Some text_positions
  | line :: rest =>
      text_positions <- extract_spans line text_positions ;;
      extract_lines rest text_positions
  end.

Fixpoint extract_blocks (bs : list Block) (text_positions : list Position)
    : option (list Position) :=
  match bs with
  | [] => Some text_positions
  | TextBlock lines :: rest =>
      text_positions <- extract_lines lines text_positions ;;
      extract_blocks rest text_positions
  | ImageBlock :: rest => extract_blocks rest text_positions
  end.

End Extractor.

(** [extract_text_positions(page)] *)
Definition extract_text_positions (page : Page) : option (list Position) :=
  match blocks page with
  | [] => Some []
  | _ =>
      let page_width := rect_width page in
      let page_height := rect_height page in
      pdf_rotation <- page_rotation page ;;
      let '(original_width, original_height) :=
        match mediabox page with
        | Some (w, h) => (w, h)
        | None => (page_width, page_height)
        end in
      extract_blocks page_width page_height original_width original_height
        pdf_rotation (blocks page) []
  end.

(** ** Absolute classifier *)

(** [sum(...)]: the additions run from [0], left to right. *)
Definition py_sum (l : list Q) : Q := fold_left Qplus l 0.

(** [analyze_absolute_position(positions)] *)
Definition analyze_absolute_position (positions : list Position) : option Z :=
  match positions with
  | [] => Some 0%Z
  | _ =>
      let n := inject_Z (Z.of_nat (length positions)) in
      avg_x <- py_div (py_sum (map normalized_x positions)) n ;;
      avg_y <- py_div (py_sum (map normalized_y positions)) n ;;
      if Qltb avg_y 0.4 && Qltb avg_x 0.6 then Some 0%Z
      else if Qgtb avg_y 0.6 && Qgtb avg_x 0.4 then Some 180%Z
      else if Qltb avg_x 0.4 && Qgtb avg_y 0.4 then Some (-90)%Z
      else if Qgtb avg_x 0.6 && Qltb avg_y 0.6 then Some 90%Z
      else Some 0%Z
  end.

(** [get_rotation_from_metadata(pdf_rotation)] *)
Definition get_rotation_from_metadata (pdf_rotation : Z) : Z :=
  if (pdf_rotation =? 90)%Z then (-90)%Z
  else if (pdf_rotation =? 180)%Z then 180%Z
  else if (pdf_rotation =? 270)%Z then 90%Z
  else 0%Z.

(** ** Absolute classifier on floats

    [analyze_absolute_position] above computes in exact arithmetic.  The
    Python code computes on binary64 floats: [sum] and [/] round their
    results, and the literals [0.4] and [0.6] are the floats nearest to 2/5
    and 3/5.  A finite float is a rational number and two floats compare as
    the rationals they are, so the classifier on floats is the same function
    with the operations that round, and the two literals, as parameters.  The
    properties of the controller below do not depend on this arithmetic and
    are stated on the exact instance. *)

Module Rounded.

Section Classifier.

(** [sum(...)] of a sequence of floats. *)
Variable float_sum : list Q -> Q.

(** [x / y] of two floats, [y] other than zero. *)
Variable float_div : Q -> Q -> Q.

(** The floats that the literals [0.4] and [0.6] denote. *)
Variables lit_04 lit_06 : Q.

(** [x / y]: division by zero raises [ZeroDivisionError]. *)
Definition div (x y : Q) : option Q :=
  if Qeq_bool y 0 then None else Some (float_div x y).

(** [analyze_absolute_position(positions)] *)
Definition analyze_absolute_position (positions : list Position) : option Z :=
  match positions with
  | [] => Some 0%Z
  | _ =>
      let n := inject_Z (Z.of_nat (length positions)) in
      avg_x <- div (float_sum (map normalized_x positions)) n ;;
      avg_y <- div (float_sum (map normalized_y positions)) n ;;
      if Qltb avg_y lit_04 && Qltb avg_x lit_06 then Some 0%Z
      else if Qgtb avg_y lit_06 && Qgtb avg_x lit_04 then Some 180%Z
      else if Qltb avg_x lit_04 && Qgtb avg_y lit_04 then Some (-90)%Z
      else if Qgtb avg_x lit_06 && Qltb avg_y lit_06 then Some 90%Z
      else Some 0%Z
  end.

(** The mean of a list of floats as the code computes it: the float sum of
    the list divided by its length. *)
Definition computed_mean (l : list Q) : Q :=
  float_div (float_sum l) (inject_Z (Z.of_nat (length l))).

End Classifier.

End Rounded.

(** Rounding to binary64, for running the classifier on floats: to the
    nearest float, a tie to the one with an even significand.  The number is
    scaled by a power of two so that it lies between 2^52 and 2^53, rounded
    to an integer and scaled back, as a fraction in lowest terms; overflow
    and the subnormal range are not modelled. *)
Definition round_half_even (num : Z) (den : positive) : Z :=
  let floor := (num / Zpos den)%Z in
  let remainder := (num mod Zpos den)%Z in
  match (2 * remainder ?= Zpos den)%Z with
  | Lt => floor
  | Gt => (floor + 1)%Z
  | Eq => if Z.even floor then floor else (floor + 1)%Z
  end.

(** [q / 2^e] *)
Definition scaled (q : Q) (e : Z) : Q :=
  if (0 <=? e)%Z then Qnum q # (Qden q * Z.to_pos (2 ^ e))
  else (Qnum q * 2 ^ (- e)) # Qden q.

Definition round_binary64 (q : Q) : Q :=
  if Qeq_bool q 0 then 0
  else
    let a := if Qltb q 0 then - q else q in
    let e0 := (Z.log2 (Qnum a) - Z.log2 (Zpos (Qden a)) - 52)%Z in
    let e :=
      if Qltb (scaled a e0) (inject_Z (2 ^ 52)) then (e0 - 1)%Z
      else if Qle_bool (inject_Z (2 ^ 53)) (scaled a e0) then (e0 + 1)%Z
      else e0 in
    let m := round_half_even (Qnum (scaled a e)) (Qden (scaled a e)) in
    let r :=
      if (0 <=? e)%Z then inject_Z (m * 2 ^ e)
      else m # Z.to_pos (2 ^ (- e)) in
    Qred (if Qltb q 0 then - r else r).

(** The sum of floats, added in list order from 0, each addition rounded. *)
Definition binary64_sum (l : list Q) : Q :=
  fold_left (fun acc x => round_binary64 (acc + x)) l 0.

Definition binary64_div (x y : Q) : Q := round_binary64 (x / y).

(** The classifier on binary64. *)
Definition binary64_analyze_absolute_position : list Position -> option Z :=
  Rounded.analyze_absolute_position binary64_sum binary64_div
    (round_binary64 0.4) (round_binary64 0.6).

(** ** Relative comparator *)

(** [apply_rotation_to_positions(positions, rotation_angle)]; the new
    dictionaries carry the three keys ['text'], ['normalized_x'] and
    ['normalized_y'] only. *)
Definition apply_rotation_to_positions
    (positions : list Position) (rotation_angle : Z) : list Position :=
  map (fun pos =>
         let x := normalized_x pos in
         let y := normalized_y pos in
         let '(new_x, new_y) :=
           if (rotation_angle =? 0)%Z then (x, y)
           else if (rotation_angle =? 90)%Z then (1 - y, x)
           else if (rotation_angle =? 180)%Z then (1 - x, 1 - y)
           else if (rotation_angle =? 270)%Z then (y, 1 - x)
           else (x, y) in
         mkPosition (text pos) new_x new_y None None)
      positions.

(** The dictionary [rotation_scores]: keys in insertion order. *)
Definition Scores : Type := list (Z * Q).

(** [d[k] = v] *)
Fixpoint dict_set (d : Scores) (k : Z) (v : Q) : Scores :=
  match d with
  | [] => [(k, v)]
  | (k', v') :: rest =>
      if (k' =? k)%Z then (k, v) :: rest else (k', v') :: dict_set rest k v
  end.

(** [max(d, key=d.get)]: the keys are visited in insertion order and a key
    replaces the best one only when its value is strictly greater; on an
    empty dictionary [max] raises [ValueError]. *)
Definition max_key (d : Scores) : option Z :=
  match d with
  | [] => None
  | first :: rest =>
      Some (fst (fold_left
                   (fun best item => if Qgtb (snd item) (snd best) then item else best)
                   rest first))
  end.

(** The two module-level variables. *)
Record Globals : Type := mkGlobals {
  _reference_positions : option (list Position);
  _detection_method : Z
}.

Section Comparator.

(** The square root of a float, [x ** 0.5]. *)
Variable sqrt : Q -> Q.

(** The Euclidean distance of two positions. *)
Definition distance (pos1 pos2 : Position) : Q :=
  sqrt ((normalized_x pos1 - normalized_x pos2) ^ 2 +
        (normalized_y pos1 - normalized_y pos2) ^ 2).

(** The inner loop of [calculate_position_similarity]: [best_distance]
    after the positions of [positions2]; [None] is [float('inf')], which
    every distance is below. *)
Definition nearest_distance (pos1 : Position) (positions2 : list Position)
    : option Q :=
  fold_left
    (fun best_distance pos2 =>
       let d := distance pos1 pos2 in
       match best_distance with
       | None => Some d
       | Some b => if Qltb d b then Some d else Some b
       end)
    positions2 None.

(** [max(0, 1 - best_distance * 2)]; at [float('inf')] it is
    [max(0, -inf)], that is [0]. *)
Definition similarity_of (best_distance : option Q) : Q :=
  match best_distance with
  | None => 0
  | Some b => py_max 0 (1 - b * 2)
  end.

(** [calculate_position_similarity(positions1, positions2)] *)
Definition calculate_position_similarity
    (positions1 positions2 : list Position) : Q :=
  if (length positions1 =? 0)%nat || (length positions2 =? 0)%nat then 0
  else
    let '(total_similarity, compared_count) :=
      fold_left
        (fun acc pos1 =>
           let '(total_similarity, compared_count) := acc in
           let similarity := similarity_of (nearest_distance pos1 positions2) in
           (total_similarity + similarity, (compared_count + 1)%Z))
        positions1 (0, 0%Z) in
    if (compared_count >? 0)%Z
    then total_similarity / inject_Z compared_count
    else 0.

(** The loop of [compare_with_reference] over the test rotations. *)
Definition rotation_scores
    (current_positions reference_positions : list Position) : Scores :=
  fold_left
    (fun scores test_rotation =>
       let rotated_positions :=
         apply_rotation_to_positions current_positions test_rotation in
       let score :=
         calculate_position_similarity rotated_positions reference_positions in
       dict_set scores test_rotation score)
    [0; 90; 180; 270]%Z [].

(** [compare_with_reference(current_positions, reference_positions)] *)
Definition compare_with_reference
    (current_positions reference_positions : list Position) : option Z :=
  if (length current_positions =? 0)%nat || (length reference_positions =? 0)%nat
  then Some 0%Z
  else
    best_rotation <-
      max_key (rotation_scores current_positions reference_positions) ;;
    let current_rotation :=
      match current_positions with
      | first :: _ =>
          match current_rotation first with
          | Some r => r
          | None => 0%Z
          end
      | [] => 0%Z
      end in
    let needed_rotation := ((best_rotation - current_rotation) mod 360)%Z in
    if (needed_rotation >? 180)%Z
    then Some (needed_rotation - 360)%Z
    else Some needed_rotation.

(** ** Detection mode controller *)

(** [analyze_text_orientation_comparative(page, reference_positions=None)];
    an absent or [None] reference is [None] here. *)
Definition analyze_text_orientation_comparative
    (page : Page) (reference_positions : option (list Position)) : option Z :=
  let pdf_rotation :=
    match page_rotation page with
    | Some r => r
    | None => 0%Z
    end in
  current_positions <- extract_text_positions page ;;
  match current_positions with
  | [] => Some (get_rotation_from_metadata pdf_rotation)
  | _ =>
      match reference_positions with
      | Some ((_ :: _) as reference) =>
          compare_with_reference current_positions reference
      | _ => analyze_absolute_position current_positions
      end
  end.

(** The branch shared, statement for statement, by methods 2 and 3 of
    [analyze_text_orientation]. *)
Definition bootstrap_or_compare (g : Globals) (page : Page)
    : option Z * Globals :=
  match _reference_positions g with
  | None =>
      match extract_text_positions page with
      | None => (None, g)
      | Some extracted =>
          let g' := mkGlobals (Some extracted) (_detection_method g) in
          match extracted with
          | _ :: _ => (Some 0%Z, g')
          | [] =>
              (positions <- extract_text_positions page ;;
               analyze_absolute_position positions, g')
          end
      end
  | Some reference =>
      (analyze_text_orientation_comparative page (Some reference), g)
  end.

(** [analyze_text_orientation(page)]: the result, [None] when the call
    raises, and the module-level variables after the call. *)
Definition analyze_text_orientation (g : Globals) (page : Page)
    : option Z * Globals :=
  if (_detection_method g =? 1)%Z then
    (positions <- extract_text_positions page ;;
     analyze_absolute_position positions, g)
  else if (_detection_method g =? 2)%Z then bootstrap_or_compare g page
  else bootstrap_or_compare g page.

(** The calls of [analyze_text_orientation] that the page loop of
    [detect_and_correct_rotation] makes, one per page and in page order: the
    result of each call and the module-level variables after the last. *)
Fixpoint analyze_pages (g : Globals) (pages : list Page)
    : list (option Z) * Globals :=
  match pages with
  | [] => ([], g)
  | page :: rest =>
      let '(result, g') := analyze_text_orientation g page in
      let '(results, g'') := analyze_pages g' rest in
      (result :: results, g'')
  end.

End Comparator.

(** The module-level variables when the module is loaded. *)
Definition initial_globals : Globals := mkGlobals None 3.

(** A rational square root for running the model: the integer square root
    of the argument taken to twelve decimal places. *)
Definition sqrt6 (q : Q) : Q :=
  Z.sqrt (Qnum q * 10 ^ 12 / Zpos (Qden q)) # 10 ^ 6.

(** ** Notions of the specification *)

(** The arithmetic mean of a list of numbers, as the spec words it: their
    sum divided by their count. *)
Fixpoint Qsum (l : list Q) : Q :=
  match l with
  | [] => 0
  | x :: rest => x + Qsum rest
  end.

Definition mean (l : list Q) : Q := Qsum l / inject_Z (Z.of_nat (length l)).

(** The decision rules of the absolute classifier, as the spec lists them,
    with strict inequalities against the two thresholds; a rule applies when
    its condition holds and no earlier rule applies. *)
Section AbsoluteRules.

(** The thresholds 0.4 and 0.6. *)
Variables lit_04 lit_06 : Q.

Definition rule1 (meanX meanY : Q) : Prop := meanY < lit_04 /\ meanX < lit_06.
Definition rule2 (meanX meanY : Q) : Prop := meanY > lit_06 /\ meanX > lit_04.
Definition rule3 (meanX meanY : Q) : Prop := meanX < lit_04 /\ meanY > lit_04.
Definition rule4 (meanX meanY : Q) : Prop := meanX > lit_06 /\ meanY < lit_06.

Inductive absolute_rule (meanX meanY : Q) : Z -> Prop :=
| decide_0 :
    rule1 meanX meanY -> absolute_rule meanX meanY 0
| decide_180 :
    ~ rule1 meanX meanY -> rule2 meanX meanY -> absolute_rule meanX meanY 180
| decide_minus_90 :
    ~ rule1 meanX meanY -> ~ rule2 meanX meanY -> rule3 meanX meanY ->
    absolute_rule meanX meanY (-90)
| decide_90 :
    ~ rule1 meanX meanY -> ~ rule2 meanX meanY -> ~ rule3 meanX meanY ->
    rule4 meanX meanY -> absolute_rule meanX meanY 90
| decide_default :
    ~ rule1 meanX meanY -> ~ rule2 meanX meanY -> ~ rule3 meanX meanY ->
    ~ rule4 meanX meanY -> absolute_rule meanX meanY 0.

End AbsoluteRules.

(** Every span of a page, in source order. *)
Definition block_spans (b : Block) : list Span :=
  match b with
  | TextBlock lines => concat lines
  | ImageBlock => []
  end.

Definition page_spans (page : Page) : list Span :=
  flat_map block_spans (blocks page).

(** The trimmed text of a span, and the test that keeps it: more than two
    code points. *)
Definition trimmed (span : Span) : pystr := strip (span_text span).

Definition long_enough (t : pystr) : bool := (2 <? length t)%nat.

(** The width and height by which the extractor normalizes. *)
Definition original_size (page : Page) : Q * Q :=
  match mediabox page with
  | Some (w, h) => (w, h)
  | None => (rect_width page, rect_height page)
  end.

(** A position without the key ['current_rotation']. *)
Definition fresh (p : Position) : Prop := current_rotation p = None.

(** What a run of the extractor's loops over [spans] appends to the list
    [acc]: one position for each span that is kept, in order. *)
Definition appended (spans : list Span) (acc ps : list Position) : Prop :=
  exists new : list Position,
    ps = acc ++ new /\
    map text new = filter long_enough (map trimmed spans) /\
    Forall fresh new.

(** The score of one candidate rotation in [compare_with_reference]. *)
Definition candidate_score (sqrt : Q -> Q)
    (current_positions reference_positions : list Position) (test_rotation : Z) : Q :=
  calculate_position_similarity sqrt
    (apply_rotation_to_positions current_positions test_rotation)
    reference_positions.

(** The four candidate rotations, in the order of the loop. *)
Definition candidates : list Z := [0; 90; 180; 270]%Z.

(** [(k, v)] is the first entry of [d] with the highest value: the entries
    before it are strictly lower, those after it are not higher. *)
Definition first_highest (d : Scores) (k : Z) (v : Q) : Prop :=
  exists before after : Scores,
    d = before ++ (k, v) :: after /\
    (forall item, In item before -> snd item < v) /\
    (forall item, In item after -> snd item <= v).

(** Folding a delta into the range (-180, 180]. *)
Definition fold_delta (needed_rotation : Z) : Z :=
  if (needed_rotation >? 180)%Z then (needed_rotation - 360)%Z else needed_rotation.

(** [page.rotation] as [analyze_text_orientation_comparative] reads it: 0
    when the read raises. *)
Definition rotation_or_0 (page : Page) : Z :=
  match page_rotation page with
  | Some r => r
  | None => 0%Z
  end.

(** ** Sample pages *)

(** The text "Hello", and the same with blanks around it. *)
Definition hello : pystr := [72; 101; 108; 108; 111]%N.
Definition padded_hello : pystr := [32; 72; 101; 108; 108; 111; 10]%N.

(** An upright A4 page with one heading near its top left corner, a
    two-letter fragment and an image. *)
Definition sample_page : Page :=
  mkPage (Some 0%Z) 595 842 (Some (595, 842))
    [ImageBlock;
     TextBlock [[mkSpan (72, 72, 300, 90) padded_hello;
                 mkSpan (310, 72, 320, 90) [32; 72; 105; 32]%N]]].

(** What the extractor returns for it. *)
Definition sample_reference : list Position :=
  [mkPosition hello (372 # 1190) (162 # 1684) (Some (72, 72, 300, 90)) None].

(** An upright page whose only text sits near the bottom right corner. *)
Definition lower_right_page : Page :=
  mkPage (Some 0%Z) 595 842 (Some (595, 842))
    [TextBlock [[mkSpan (400, 700, 560, 760) hello]]].

(** A page without text whose rotation metadata is 90. *)
Definition blank_page_90 : Page :=
  mkPage (Some 90%Z) 842 595 (Some (595, 842)) [].

(** An upright page without text. *)
Definition blank_page : Page :=
  mkPage (Some 0%Z) 595 842 (Some (595, 842)) [].

(** ** Further notions *)

(** A box that is well ordered and lies on a page of the given size. *)
Definition inside (b : BBox) (width height : Q) : Prop :=
  let '(x0, y0, x1, y1) := b in
  0 <= x0 /\ x0 <= x1 /\ x1 <= width /\ 0 <= y0 /\ y0 <= y1 /\ y1 <= height.

(** The size of the unrotated page, given the size of the page as displayed
    under the rotation: width and height change places at 90 and 270. *)
Definition unrotated_size (width height : Q) (rotation : Z) : Q * Q :=
  if (rotation =? 90)%Z || (rotation =? 270)%Z
  then (height, width) else (width, height).

(** The span is kept by the extractor. *)
Definition kept (span : Span) : bool := long_enough (trimmed span).

(** The dictionary that the extractor appends for a kept span. *)
Definition span_position
    (page_width page_height original_width original_height : Q)
    (pdf_rotation : Z) (span : Span) : Position :=
  let original_bbox :=
    transform_coordinates_to_original (span_bbox span) page_width page_height
      pdf_rotation in
  let '(b0, b1, b2, b3) := original_bbox in
  mkPosition (trimmed span)
    ((b0 + b2) / 2 / original_width) ((b1 + b3) / 2 / original_height)
    (Some original_bbox) None.

(** The extractor divides by a zero width or height. *)
Definition degenerate (page : Page) : bool :=
  Qeq_bool (fst (original_size page)) 0 || Qeq_bool (snd (original_size page)) 0.

(** ** Rotation applicator *)

(** What [detect_and_correct_rotation] does with one page: it calls
    [page.set_rotation(new_rotation)], or finds no rotation needed, or the
    page raises and is skipped. *)
Inductive Outcome : Type :=
| Rotated (new_rotation : Z)
| NotNeeded
| PageError.

Section Applicator.

Variable sqrt : Q -> Q.

(** The body of the page loop, inside its [try]; [page.set_rotation] is
    taken to succeed. *)
Definition correct_page (g : Globals) (page : Page) : Outcome * Globals :=
  match page_rotation page with
  | None => (PageError, g)
  | Some current_rotation =>
      let '(result, g') := analyze_text_orientation sqrt g page in
      match result with
      | None => (PageError, g')
      | Some suggested_rotation =>
          if negb (suggested_rotation =? 0)%Z then
            let new_rotation := ((current_rotation + suggested_rotation) mod 360)%Z in
            (Rotated new_rotation, g')
          else (NotNeeded, g')
      end
  end.

(** The page loop: the outcome of each page, the flag [corrected] and the
    module-level variables after the last page. *)
Fixpoint correct_pages (g : Globals) (pages : list Page) (corrected : bool)
    : list Outcome * bool * Globals :=
  match pages with
  | [] => ([], corrected, g)
  | page :: rest =>
      let '(outcome, g') := correct_page g page in
      let corrected' :=
        match outcome with
        | Rotated _ => true
        | _ => corrected
        end in
      let '(outcomes, corrected'', g'') := correct_pages g' rest corrected' in
      (outcome :: outcomes, corrected'', g'')
  end.

(** [detect_and_correct_rotation(input_pdf, output_pdf)]: [opened] is the
    pages of the document that [fitz.open] returns, [None] when it raises;
    [saved] tells whether [doc.save] returns.  The result is the returned
    flag, the outcome of each page and the module-level variables after the
    call. *)
Definition detect_and_correct_rotation
    (g : Globals) (opened : option (list Page)) (saved : bool)
    : bool * list Outcome * Globals :=
  match opened with
  | None => (false, [], g)
  | Some pages =>
      let '(outcomes, corrected, g') := correct_pages g pages false in
      if saved then (corrected, outcomes, g') else (false, outcomes, g')
  end.

End Applicator.

(** The observation of the first page whose extraction returns. *)
Fixpoint first_observation (pages : list Page) : option (list Position) :=
  match pages with
  | [] => None
  | page :: rest =>
      match extract_text_positions page with
      | Some observation => Some observation
      | None => first_observation rest
      end
  end.

(** ** Choice of the detection method *)

(** What [input] gives at one prompt: a line, or [KeyboardInterrupt]. *)
Inductive Answer : Type :=
| Typed (line : pystr)
| Interrupted.

Definition pystr_eqb (a b : pystr) : bool :=
  if list_eq_dec N.eq_dec a b then true else false.

(** [choose_detection_method()], given the answers to its successive
    prompts; when the answers run out [input] raises [EOFError], which the
    function does not catch ([None]). *)
Fixpoint choose_detection_method (answers : list Answer) : option Z :=
  match answers with
  | [] => None
  | Interrupted :: _ => Some 3%Z
  | Typed line :: rest =>
      let choice := strip line in
      if pystr_eqb choice [49%N] then Some 1%Z
      else if pystr_eqb choice [50%N] then Some 2%Z
      else if pystr_eqb choice [51%N] then Some 3%Z
      else choose_detection_method rest
  end.

(** The module-level variables as [main] resets them before the first
    document. *)
Definition reset_globals (method : Z) : Globals := mkGlobals None method.

(** A page whose rotation cannot be read. *)
Definition broken_page : Page :=
  mkPage None 595 842 (Some (595, 842))
    [TextBlock [[mkSpan (72, 72, 300, 90) hello]]].

(** The outcome is a call of [page.set_rotation]. *)
Definition is_rotated (outcome : Outcome) : bool :=
  match outcome with
  | Rotated _ => true
  | _ => false
  end.

(** A call [page.set_rotation(v)] on [page] is sound: the page's rotation
    [r] was read, [v] is [r] plus a delta of -90, 90 or 180 modulo 360, it
    lies in [0, 360), and when [r] is one of 0, 90, 180, 270 so is [v], and
    [v] differs from [r]. *)
Definition sound_outcome (page : Page) (outcome : Outcome) : Prop :=
  forall v, outcome = Rotated v ->
    exists r d,
      page_rotation page = Some r /\ In d [-90; 90; 180]%Z /\
      v = ((r + d) mod 360)%Z /\ (0 <= v < 360)%Z /\
      (In r candidates -> In v candidates /\ v <> r).

(** The answer is not one of the three choices. *)
Definition rejected (answer : Answer) : Prop :=
  exists line, answer = Typed line /\
    strip line <> [49%N] /\ strip line <> [50%N] /\ strip line <> [51%N].

(** The answer selects the method [m]. *)
Definition selects (answer : Answer) (m : Z) : Prop :=
  (answer = Interrupted /\ m = 3%Z) \/
  (exists line, answer = Typed line /\
     ((strip line = [49%N] /\ m = 1%Z) \/
      (strip line = [50%N] /\ m = 2%Z) \/
      (strip line = [51%N] /\ m = 3%Z))).

(** The page's rotation can be read. *)
Definition readable (page : Page) : bool :=
  match page_rotation page with
  | Some _ => true
  | None => false
  end.

(** Two positions whose [normalized_x] are the floats 0.1 and 0.7, and one
    position at the floats 0.4 and 0.75. *)
Definition positions_01_07 : list Position :=
  [mkPosition hello (round_binary64 0.1) (round_binary64 0.5) None None;
   mkPosition hello (round_binary64 0.7) (round_binary64 0.5) None None].

Definition position_04_075 : list Position :=
  [mkPosition hello (round_binary64 0.4) (round_binary64 0.75) None None].

(** * Properties *)

(** ** Comparisons *)

Lemma Qltb_lt (x y : Q) : Qltb x y = true <-> x < y.
Proof.
  unfold Qltb. rewrite negb_true_iff. split; intro H.
  - apply Qnot_le_lt. intro Hle. apply Qle_bool_iff in Hle. congruence.
  - destruct (Qle_bool y x) eqn:E; [|reflexivity].
    apply Qle_bool_iff in E. exfalso. apply (Qlt_not_le _ _ H E).
Qed.

Lemma Qltb_ge (x y : Q) : Qltb x y = false <-> y <= x.
Proof.
  unfold Qltb. rewrite negb_false_iff. apply Qle_bool_iff.
Qed.

Lemma Qgtb_gt (x y : Q) : Qgtb x y = true <-> y < x.
Proof. apply Qltb_lt. Qed.

Lemma Qgtb_le (x y : Q) : Qgtb x y = false <-> x <= y.
Proof. apply Qltb_ge. Qed.

(** ** Coordinate transformer *)

Example transform_90 :
  transform_coordinates_to_original (1, 2, 3, 4) 10 20 90 = (2, 10 - 3, 4, 10 - 1).
Proof. reflexivity. Qed.

(** C3: the transformer is the identity at rotation 0, gives
    [(y0, W-x1, y1, W-x0)] at 90, [(W-x1, H-y1, W-x0, H-y0)] at 180,
    [(H-y1, x0, H-y0, x1)] at 270, and at every other rotation value returns
    its input unchanged; it is a total function, so it never fails. *)
Theorem transform_coordinates_to_original_cases (x0 y0 x1 y1 W H : Q) :
  transform_coordinates_to_original (x0, y0, x1, y1) W H 0 = (x0, y0, x1, y1) /\
  transform_coordinates_to_original (x0, y0, x1, y1) W H 90
    = (y0, W - x1, y1, W - x0) /\
  transform_coordinates_to_original (x0, y0, x1, y1) W H 180
    = (W - x1, H - y1, W - x0, H - y0) /\
  transform_coordinates_to_original (x0, y0, x1, y1) W H 270
    = (H - y1, x0, H - y0, x1) /\
  (forall r : Z, r <> 0%Z -> r <> 90%Z -> r <> 180%Z -> r <> 270%Z ->
     transform_coordinates_to_original (x0, y0, x1, y1) W H r = (x0, y0, x1, y1)).
Proof.
  repeat split.
  intros r H0 H90 H180 H270. unfold transform_coordinates_to_original.
  apply Z.eqb_neq in H0, H90, H180, H270.
  now rewrite H0, H90, H180, H270.
Qed.

Lemma transform_coordinates_to_original_cases_witness :
  transform_coordinates_to_original (1, 2, 3, 4) 10 20 45 = (1, 2, 3, 4).
Proof.
  apply (proj2 (proj2 (proj2 (proj2
    (transform_coordinates_to_original_cases 1 2 3 4 10 20)))));
    discriminate.
Defined.

(** The forward rotation of the spec is determined by the code: it is a
    two-sided inverse of the transformer. *)
Lemma rotate_then_transform (b : BBox) (W H : Q) (r : Z) :
  bbox_eq (transform_coordinates_to_original (rotate_bbox_to_display b W H r) W H r) b.
Proof.
  destruct b as [[[x0 y0] x1] y1].
  unfold transform_coordinates_to_original, rotate_bbox_to_display.
  destruct (r =? 0)%Z; [simpl; repeat split; reflexivity|].
  destruct (r =? 90)%Z; [simpl; repeat split; ring|].
  destruct (r =? 180)%Z; [simpl; repeat split; ring|].
  destruct (r =? 270)%Z; simpl; repeat split; try ring; reflexivity.
Qed.

Lemma transform_then_rotate (b : BBox) (W H : Q) (r : Z) :
  bbox_eq (rotate_bbox_to_display (transform_coordinates_to_original b W H r) W H r) b.
Proof.
  destruct b as [[[x0 y0] x1] y1].
  unfold transform_coordinates_to_original, rotate_bbox_to_display.
  destruct (r =? 0)%Z; [simpl; repeat split; reflexivity|].
  destruct (r =? 90)%Z; [simpl; repeat split; ring|].
  destruct (r =? 180)%Z; [simpl; repeat split; ring|].
  destruct (r =? 270)%Z; simpl; repeat split; try ring; reflexivity.
Qed.

(** C5: for a rotation in 0, 90, 180, 270, rotating a native box into display
    space and transforming it back with the same rotation and the same
    display width and height recovers the four numbers of the box. *)
Theorem transform_round_trip (b : BBox) (W H : Q) (r : Z) :
  In r [0; 90; 180; 270]%Z ->
  bbox_eq (transform_coordinates_to_original (rotate_bbox_to_display b W H r) W H r) b.
Proof.
  destruct b as [[[x0 y0] x1] y1]. simpl.
  intros [<-|[<-|[<-|[<-|[]]]]]; simpl; repeat split; ring.
Qed.

Lemma transform_round_trip_witness :
  bbox_eq
    (transform_coordinates_to_original
       (rotate_bbox_to_display (72, 100, 300, 112) 842 595 90) 842 595 90)
    (72, 100, 300, 112).
Proof.
  apply (transform_round_trip (72, 100, 300, 112) 842 595 90).
  simpl. right. left. reflexivity.
Defined.

(** ** Absolute classifier *)

Lemma py_div_nonzero (x y : Q) : ~ y == 0 -> py_div x y = Some (x / y).
Proof.
  intro H. unfold py_div. destruct (Qeq_bool y 0) eqn:E; [|reflexivity].
  apply Qeq_bool_iff in E. contradiction.
Qed.


Lemma fold_left_Qplus (l : list Q) (acc : Q) :
  fold_left Qplus l acc == acc + Qsum l.
Proof.
  revert acc. induction l as [|x l IH]; intro acc; simpl.
  - ring.
  - rewrite IH. ring.
Qed.

Lemma py_sum_Qsum (l : list Q) : py_sum l == Qsum l.
Proof. unfold py_sum. rewrite fold_left_Qplus. ring. Qed.

Lemma computed_mean_exact (l : list Q) :
  Rounded.computed_mean py_sum Qdiv l == mean l.
Proof.
  unfold Rounded.computed_mean, mean. now rewrite py_sum_Qsum.
Qed.

(** The classifier in exact arithmetic is the classifier on floats whose
    operations do not round and whose literals are 2/5 and 3/5. *)
Lemma analyze_absolute_position_exact (positions : list Position) :
  analyze_absolute_position positions
  = Rounded.analyze_absolute_position py_sum Qdiv 0.4 0.6 positions.
Proof. reflexivity. Qed.

Section AbsoluteRuleFacts.

Variables lit_04 lit_06 : Q.

Lemma absolute_rule_functional (mx my : Q) (d d' : Z) :
  absolute_rule lit_04 lit_06 mx my d -> absolute_rule lit_04 lit_06 mx my d' ->
  d = d'.
Proof.
  intros H H'. destruct H; destruct H'; try reflexivity; contradiction.
Qed.





End AbsoluteRuleFacts.


Section RoundedClassifierFacts.

Variable float_sum : list Q -> Q.
Variable float_div : Q -> Q -> Q.
Variables lit_04 lit_06 : Q.



End RoundedClassifierFacts.

(** The floats that the literals denote. *)
Example float_04 : round_binary64 0.4 = 3602879701896397 # 9007199254740992.
Proof. reflexivity. Qed.

Example float_06 : round_binary64 0.6 = 5404319552844595 # 9007199254740992.
Proof. reflexivity. Qed.

(** On binary64 the mean of 0.1 and 0.7 is below 0.4, and the page is
    decided -90; in exact arithmetic the mean of 1/10 and 7/10 is 2/5 and the
    page is decided 0. *)
Example binary64_mean_below_04 :
  binary64_analyze_absolute_position positions_01_07 = Some (-90)%Z /\
  analyze_absolute_position
    [mkPosition hello 0.1 0.5 None None; mkPosition hello 0.7 0.5 None None]
  = Some 0%Z.
Proof. split; vm_compute; reflexivity. Qed.

(** On binary64 a mean that is the float 0.4 is not above the literal 0.4,
    and the page is decided 0. *)
Example binary64_mean_at_04 :
  binary64_analyze_absolute_position position_04_075 = Some 0%Z.
Proof. vm_compute. reflexivity. Qed.

(** ** Position extractor *)

Lemma keep_test (t : pystr) :
  negb (length t =? 0)%nat && (2 <? length t)%nat = long_enough t.
Proof.
  unfold long_enough. destruct (2 <? length t)%nat eqn:E.
  - apply Nat.ltb_lt in E. destruct t; [simpl in E; lia | reflexivity].
  - apply andb_false_r.
Qed.

Section ExtractorFacts.

Variables page_width page_height original_width original_height : Q.
Variable pdf_rotation : Z.

Let spans_of := extract_spans page_width page_height original_width
                  original_height pdf_rotation.
Let lines_of := extract_lines page_width page_height original_width
                  original_height pdf_rotation.
Let blocks_of := extract_blocks page_width page_height original_width
                   original_height pdf_rotation.

Lemma appended_nil (acc : list Position) : appended [] acc acc.
Proof. exists []. now rewrite app_nil_r. Qed.

Lemma appended_trans (s1 s2 : list Span) (acc mid ps : list Position) :
  appended s1 acc mid -> appended s2 mid ps -> appended (s1 ++ s2) acc ps.
Proof.
  intros (n1 & -> & T1 & F1) (n2 & -> & T2 & F2).
  exists (n1 ++ n2). split; [now rewrite app_assoc|]. split.
  - now rewrite !map_app, filter_app, T1, T2.
  - apply Forall_app. now split.
Qed.

Lemma extract_spans_appended (spans : list Span) :
  forall acc ps, spans_of spans acc = Some ps -> appended spans acc ps.
Proof.
  subst spans_of.
  induction spans as [|span rest IH]; intros acc ps H; simpl in H.
  - injection H as <-. apply appended_nil.
  - rewrite keep_test in H. fold (trimmed span) in H.
    destruct (long_enough (trimmed span)) eqn:E.
    + destruct (transform_coordinates_to_original _ _ _ _) as [[[b0 b1] b2] b3] eqn:T.
      destruct (py_div ((b0 + b2) / 2) original_width) as [nx|]; [|discriminate].
      destruct (py_div ((b1 + b3) / 2) original_height) as [ny|]; [|discriminate].
      cbn [bind] in H. apply IH in H.
      eapply (appended_trans [span] rest acc); [|exact H].
      eexists. split; [reflexivity|]. split.
      * simpl. now rewrite E.
      * repeat constructor.
    + apply IH in H. destruct H as (new & -> & T & F).
      exists new. split; [reflexivity|]. split; [|exact F].
      simpl. now rewrite E.
Qed.

Lemma extract_lines_appended (lines : list Line) :
  forall acc ps, lines_of lines acc = Some ps -> appended (concat lines) acc ps.
Proof.
  subst lines_of.
  induction lines as [|line rest IH]; intros acc ps H; simpl in H.
  - injection H as <-. apply appended_nil.
  - destruct (extract_spans _ _ _ _ _ line acc) as [mid|] eqn:E; [|discriminate].
    cbn [bind] in H. simpl.
    apply (appended_trans line (concat rest) acc mid ps).
    + now apply extract_spans_appended.
    + now apply IH.
Qed.

Lemma extract_blocks_appended (bs : list Block) :
  forall acc ps,
    blocks_of bs acc = Some ps -> appended (flat_map block_spans bs) acc ps.
Proof.
  subst blocks_of.
  induction bs as [|[lines|] rest IH]; intros acc ps H; simpl in H.
  - injection H as <-. apply appended_nil.
  - destruct (extract_lines _ _ _ _ _ lines acc) as [mid|] eqn:E; [|discriminate].
    cbn [bind] in H. simpl.
    apply (appended_trans (concat lines) _ acc mid ps).
    + now apply extract_lines_appended.
    + now apply IH.
  - simpl. now apply IH.
Qed.

(** With a width and a height other than zero no division raises. *)
Hypothesis width_nonzero : ~ original_width == 0.
Hypothesis height_nonzero : ~ original_height == 0.

Lemma extract_spans_returns (spans : list Span) :
  forall acc, exists ps, spans_of spans acc = Some ps.
Proof.
  subst spans_of.
  induction spans as [|span rest IH]; intro acc; simpl.
  - now exists acc.
  - destruct (_ && _); [|apply IH].
    destruct (transform_coordinates_to_original _ _ _ _) as [[[b0 b1] b2] b3].
    rewrite !py_div_nonzero by assumption. cbn [bind]. apply IH.
Qed.

Lemma extract_lines_returns (lines : list Line) :
  forall acc, exists ps, lines_of lines acc = Some ps.
Proof.
  subst lines_of.
  induction lines as [|line rest IH]; intro acc; simpl.
  - now exists acc.
  - destruct (extract_spans_returns line acc) as [mid E].
    subst spans_of. rewrite E. cbn [bind]. apply IH.
Qed.

Lemma extract_blocks_returns (bs : list Block) :
  forall acc, exists ps, blocks_of bs acc = Some ps.
Proof.
  subst blocks_of.
  induction bs as [|[lines|] rest IH]; intro acc; simpl.
  - now exists acc.
  - destruct (extract_lines_returns lines acc) as [mid E].
    subst lines_of. rewrite E. cbn [bind]. apply IH.
  - apply IH.
Qed.

End ExtractorFacts.

Lemma extract_text_positions_appended (page : Page) (ps : list Position) :
  extract_text_positions page = Some ps -> appended (page_spans page) [] ps.
Proof.
  unfold extract_text_positions, page_spans. intro H.
  destruct (blocks page) as [|b bs] eqn:B.
  - injection H as <-. apply appended_nil.
  - destruct (page_rotation page) as [r|]; [|discriminate]. cbn [bind] in H.
    destruct (match mediabox page with Some (w, h) => (w, h) | None => _ end)
      as [ow oh].
    now apply extract_blocks_appended in H.
Qed.

(** The extractor returns whenever the page rotation can be read and the
    page is not degenerate. *)
Lemma extract_text_positions_returns (page : Page) (r : Z) :
  page_rotation page = Some r ->
  ~ fst (original_size page) == 0 -> ~ snd (original_size page) == 0 ->
  exists ps, extract_text_positions page = Some ps.
Proof.
  unfold extract_text_positions, original_size. intros R Hw Hh.
  destruct (blocks page) as [|b bs]; [now exists []|].
  rewrite R. cbn [bind].
  destruct (match mediabox page with Some (w, h) => (w, h) | None => _ end)
    as [ow oh].
  now apply extract_blocks_returns.
Qed.

Lemma extract_text_positions_fresh (page : Page) (ps : list Position) :
  extract_text_positions page = Some ps -> Forall fresh ps.
Proof.
  intro H. apply extract_text_positions_appended in H.
  destruct H as (new & -> & _ & F). exact F.
Qed.

(** C9: the texts of the anchors extracted from a page are, in order, the
    trimmed texts of exactly those spans whose trimmed text is longer than
    two code points; a span whose trimmed text has length at most 2
    contributes no anchor. *)
Theorem extract_text_positions_noise_filter (page : Page) (ps : list Position) :
  extract_text_positions page = Some ps ->
  map text ps = filter (fun t => (2 <? length t)%nat)
                       (map (fun span => strip (span_text span)) (page_spans page)) /\
  (forall p, In p ps -> (length (text p) > 2)%nat) /\
  (forall span, In span (page_spans page) ->
     (length (strip (span_text span)) <= 2)%nat ->
     ~ In (strip (span_text span)) (map text ps)).
Proof.
  intro H. apply extract_text_positions_appended in H.
  destruct H as (new & -> & T & _). simpl.
  assert (E : map text new =
              filter (fun t => (2 <? length t)%nat)
                (map (fun span => strip (span_text span)) (page_spans page)))
    by exact T.
  split; [exact E|]. split.
  - intros p Hp. apply (in_map text) in Hp. rewrite E in Hp.
    apply filter_In in Hp. destruct Hp as [_ Hp]. apply Nat.ltb_lt in Hp. lia.
  - intros span _ Hlen Hin. rewrite E in Hin.
    apply filter_In in Hin. destruct Hin as [_ Hin]. apply Nat.ltb_lt in Hin. lia.
Qed.

(** ** Relative comparator: the choice of the best rotation *)

Lemma fold_best_first_highest (rest : Scores) (first : Z * Q) :
  let best :=
    fold_left (fun best item => if Qgtb (snd item) (snd best) then item else best)
      rest first in
  first_highest (first :: rest) (fst best) (snd best).
Proof.
  induction rest as [|x rest IH] using rev_ind; simpl.
  - exists [], []. destruct first. simpl. repeat split; intros ? [].
  - rewrite fold_left_app. simpl.
    set (best := fold_left _ rest first) in *.
    destruct IH as (before & after & E & Hb & Ha).
    destruct (Qgtb (snd x) (snd best)) eqn:G.
    + apply Qgtb_gt in G.
      exists (first :: rest), []. split; [|split].
      * destruct x. reflexivity.
      * intros item Hin. rewrite E in Hin. apply in_app_or in Hin.
        destruct Hin as [Hin|[<-|Hin]].
        -- apply Hb in Hin. lra.
        -- exact G.
        -- apply Ha in Hin. lra.
      * intros ? [].
    + apply Qgtb_le in G.
      exists before, (after ++ [x]). split; [|split].
      * rewrite app_comm_cons, E, <- app_assoc. reflexivity.
      * exact Hb.
      * intros item Hin. apply in_app_or in Hin.
        destruct Hin as [Hin|[<-|[]]]; [now apply Ha | exact G].
Qed.

Lemma max_key_first_highest (d : Scores) :
  d <> [] -> exists k v, max_key d = Some k /\ first_highest d k v.
Proof.
  destruct d as [|first rest]; [congruence|]. intros _.
  eexists _, _. split; [reflexivity|]. apply fold_best_first_highest.
Qed.

Lemma fold_delta_candidate (best : Z) :
  In best candidates ->
  fold_delta ((best - 0) mod 360) = (if (best =? 270)%Z then -90 else best)%Z /\
  In (fold_delta ((best - 0) mod 360)) [-90; 0; 90; 180]%Z.
Proof.
  unfold candidates. simpl.
  intros [<-|[<-|[<-|[<-|[]]]]]; vm_compute; intuition congruence.
Qed.

Section ComparatorChoice.

Variable sqrt : Q -> Q.
Variables current_positions reference_positions : list Position.

Let score := candidate_score sqrt current_positions reference_positions.

Lemma rotation_scores_in_order :
  rotation_scores sqrt current_positions reference_positions
  = map (fun r => (r, score r)) candidates.
Proof. reflexivity. Qed.

(** The best rotation is the first candidate with the highest score. *)
Lemma best_rotation_first_highest :
  exists before best after,
    max_key (rotation_scores sqrt current_positions reference_positions) = Some best /\
    candidates = before ++ best :: after /\
    (forall r, In r before -> score r < score best) /\
    (forall r, In r after -> score r <= score best).
Proof.
  destruct (max_key_first_highest
              (rotation_scores sqrt current_positions reference_positions))
    as (k & v & M & l1 & l2 & E & Hb & Ha).
  { rewrite rotation_scores_in_order. discriminate. }
  rewrite rotation_scores_in_order in E.
  apply map_eq_app in E. destruct E as (before & tl & Ec & <- & Etl).
  apply map_eq_cons in Etl. destruct Etl as (best & after & -> & Ek & <-).
  injection Ek as -> <-.
  exists before, k, after. repeat split; [exact M | exact Ec | |].
  - intros r Hin. apply (Hb (r, score r)). now apply (in_map (fun r => (r, score r))).
  - intros r Hin. apply (Ha (r, score r)). now apply (in_map (fun r => (r, score r))).
Qed.

(** C2: with a non-empty current set and a non-empty reference set, the
    comparator scores the candidates 0, 90, 180, 270 in this order, takes the
    first candidate whose score no candidate exceeds (those before it are
    strictly lower), and returns [(best - 0) mod 360] lowered by 360 when
    above 180: [best] itself for 0, 90 and 180, and -90 for 270.  The current
    positions are those of the extractor, without a ['current_rotation']. *)
Theorem compare_with_reference_first_best :
  current_positions <> [] -> reference_positions <> [] ->
  Forall fresh current_positions ->
  rotation_scores sqrt current_positions reference_positions
    = map (fun r => (r, score r)) candidates /\
  exists before best after,
    candidates = before ++ best :: after /\
    (forall r, In r before -> score r < score best) /\
    (forall r, In r after -> score r <= score best) /\
    compare_with_reference sqrt current_positions reference_positions
      = Some (fold_delta ((best - 0) mod 360)) /\
    fold_delta ((best - 0) mod 360) = (if (best =? 270)%Z then -90 else best)%Z.
Proof.
  intros Hc Hr Hf. split; [apply rotation_scores_in_order|].
  destruct best_rotation_first_highest as (before & best & after & M & E & Hb & Ha).
  exists before, best, after. repeat split; try assumption.
  - unfold compare_with_reference. rewrite M. cbn [bind].
    destruct current_positions as [|first rest]; [congruence|].
    destruct reference_positions as [|r0 rs]; [congruence|].
    inversion Hf as [|? ? Hfirst _]. unfold fresh in Hfirst. rewrite Hfirst.
    cbn [length Nat.eqb orb]. unfold fold_delta.
    now destruct ((best - 0) mod 360 >? 180)%Z.
  - apply fold_delta_candidate. rewrite E. apply in_elt.
Qed.

End ComparatorChoice.

(** ** Relative comparator: the similarity score *)

Lemma py_max_0_le_1 (b : Q) : 0 <= b -> 0 <= py_max 0 (1 - b * 2) <= 1.
Proof.
  intro Hb. unfold py_max.
  destruct (Qgtb (1 - b * 2) 0) eqn:G.
  - apply Qgtb_gt in G. lra.
  - lra.
Qed.

Lemma py_max_0_at_0 (b : Q) : b == 0 -> py_max 0 (1 - b * 2) == 1.
Proof.
  intro Hb. unfold py_max.
  destruct (Qgtb (1 - b * 2) 0) eqn:G.
  - lra.
  - apply Qgtb_le in G. lra.
Qed.

Section Similarity.

Variable sqrt : Q -> Q.

(** What the development asks of the square root. *)
Hypothesis sqrt_zero : forall q, q == 0 -> sqrt q == 0.
Hypothesis sqrt_nonneg : forall q, 0 <= sqrt q.

Lemma distance_nonneg (p q : Position) : 0 <= distance sqrt p q.
Proof. apply sqrt_nonneg. Qed.

Lemma distance_same_place (p q : Position) :
  normalized_x p = normalized_x q -> normalized_y p = normalized_y q ->
  distance sqrt p q == 0.
Proof.
  intros Hx Hy. unfold distance. apply sqrt_zero. rewrite Hx, Hy.
  simpl. ring.
Qed.

(** The inner loop started from a finite [best_distance]. *)
Lemma nearest_from_some (q : Position) (l : list Position) :
  forall b, 0 <= b ->
    exists d,
      fold_left
        (fun best_distance pos2 =>
           let d := distance sqrt q pos2 in
           match best_distance with
           | None => Some d
           | Some b => if Qltb d b then Some d else Some b
           end) l (Some b) = Some d /\
      0 <= d /\ d <= b /\ (forall p, In p l -> d <= distance sqrt q p).
Proof.
  induction l as [|p l IH]; intros b Hb; simpl.
  - exists b. repeat split; [exact Hb | lra | intros ? []].
  - destruct (Qltb (distance sqrt q p) b) eqn:L.
    + apply Qltb_lt in L.
      destruct (IH _ (distance_nonneg q p)) as (d & E & H0 & Hd & Hall).
      exists d. repeat split; [exact E | exact H0 | lra |].
      intros p' [<-|Hin]; [exact Hd | now apply Hall].
    + apply Qltb_ge in L.
      destruct (IH _ Hb) as (d & E & H0 & Hd & Hall).
      exists d. repeat split; [exact E | exact H0 | exact Hd |].
      intros p' [<-|Hin]; [lra | now apply Hall].
Qed.

(** Against a non-empty list the nearest distance is finite, not negative
    and not above the distance to any of its positions. *)
Lemma nearest_distance_least (q : Position) (l : list Position) :
  l <> [] ->
  exists d, nearest_distance sqrt q l = Some d /\
            0 <= d /\ (forall p, In p l -> d <= distance sqrt q p).
Proof.
  destruct l as [|p l]; [congruence|]. intros _.
  unfold nearest_distance. simpl.
  destruct (nearest_from_some q l _ (distance_nonneg q p)) as (d & E & H0 & Hd & Hall).
  exists d. repeat split; [exact E | exact H0 |].
  intros p' [<-|Hin]; [exact Hd | now apply Hall].
Qed.

Lemma similarity_bounds (q : Position) (l : list Position) :
  0 <= similarity_of (nearest_distance sqrt q l) <= 1.
Proof.
  destruct l as [|p l].
  - simpl. lra.
  - destruct (nearest_distance_least q (p :: l)) as (d & -> & H0 & _);
      [discriminate|].
    simpl. now apply py_max_0_le_1.
Qed.

(** A position that lies where some position of [l] lies has similarity 1. *)
Lemma similarity_same_place (q p : Position) (l : list Position) :
  In p l ->
  normalized_x q = normalized_x p -> normalized_y q = normalized_y p ->
  similarity_of (nearest_distance sqrt q l) == 1.
Proof.
  intros Hin Hx Hy.
  destruct (nearest_distance_least q l) as (d & -> & H0 & Hall).
  { intros ->. destruct Hin. }
  simpl. apply py_max_0_at_0.
  specialize (Hall p Hin). rewrite (distance_same_place q p Hx Hy) in Hall. lra.
Qed.

(** The outer loop: the count grows by one per position. *)
Lemma outer_loop_count (l1 l2 : list Position) (t : Q) (c : Z) :
  snd (fold_left
         (fun acc pos1 =>
            let '(total_similarity, compared_count) := acc in
            let similarity := similarity_of (nearest_distance sqrt pos1 l2) in
            (total_similarity + similarity, (compared_count + 1)%Z))
         l1 (t, c)) = (c + Z.of_nat (length l1))%Z.
Proof.
  revert t c. induction l1 as [|p l1 IH]; intros t c.
  - simpl. lia.
  - cbn [fold_left]. rewrite IH. cbn [length]. lia.
Qed.

Lemma outer_loop_total_le (l1 l2 : list Position) (t : Q) (c : Z) :
  fst (fold_left
         (fun acc pos1 =>
            let '(total_similarity, compared_count) := acc in
            let similarity := similarity_of (nearest_distance sqrt pos1 l2) in
            (total_similarity + similarity, (compared_count + 1)%Z))
         l1 (t, c)) <= t + inject_Z (Z.of_nat (length l1)).
Proof.
  revert t c. induction l1 as [|p l1 IH]; intros t c.
  - cbn. unfold inject_Z. lra.
  - cbn [fold_left]. eapply Qle_trans; [apply IH|].
    pose proof (similarity_bounds p l2) as [_ H1].
    cbn [length]. rewrite Nat2Z.inj_succ, <- Z.add_1_r, inject_Z_plus.
    change (inject_Z 1) with 1. lra.
Qed.

Lemma outer_loop_total_all_1 (l1 l2 : list Position) (t : Q) (c : Z) :
  (forall p, In p l1 -> similarity_of (nearest_distance sqrt p l2) == 1) ->
  fst (fold_left
         (fun acc pos1 =>
            let '(total_similarity, compared_count) := acc in
            let similarity := similarity_of (nearest_distance sqrt pos1 l2) in
            (total_similarity + similarity, (compared_count + 1)%Z))
         l1 (t, c)) == t + inject_Z (Z.of_nat (length l1)).
Proof.
  revert t c. induction l1 as [|p l1 IH]; intros t c Hall.
  - cbn. unfold inject_Z. ring.
  - cbn [fold_left]. rewrite IH by (intros; apply Hall; now right).
    rewrite (Hall p) by now left.
    cbn [length]. rewrite Nat2Z.inj_succ, <- Z.add_1_r, inject_Z_plus.
    change (inject_Z 1) with 1. ring.
Qed.

Lemma count_positive {A : Type} (a : A) (l : list A) :
  0 < inject_Z (Z.of_nat (length (a :: l))).
Proof. unfold Qlt. simpl. lia. Qed.

(** No score exceeds 1. *)
Lemma calculate_position_similarity_le_1 (l1 l2 : list Position) :
  calculate_position_similarity sqrt l1 l2 <= 1.
Proof.
  unfold calculate_position_similarity.
  destruct l1 as [|p l1]; [simpl; lra|].
  destruct l2 as [|r l2]; [simpl; lra|].
  cbn [length Nat.eqb orb].
  pose proof (outer_loop_count (p :: l1) (r :: l2) 0 0) as Hc.
  pose proof (outer_loop_total_le (p :: l1) (r :: l2) 0 0) as Ht.
  destruct (fold_left _ (p :: l1) (0, 0%Z)) as [total count].
  cbn [fst snd] in Hc, Ht. subst count. rewrite Z.add_0_l.
  pose proof (count_positive p l1) as Hpos.
  destruct (Z.of_nat (length (p :: l1)) >? 0)%Z; [|lra].
  apply Qle_shift_div_r; [exact Hpos | lra].
Qed.

(** When every position has similarity 1 the score is 1. *)
Lemma calculate_position_similarity_all_1 (l1 l2 : list Position) :
  l1 <> [] -> l2 <> [] ->
  (forall p, In p l1 -> similarity_of (nearest_distance sqrt p l2) == 1) ->
  calculate_position_similarity sqrt l1 l2 == 1.
Proof.
  intros H1 H2 Hall. unfold calculate_position_similarity.
  destruct l1 as [|p l1]; [congruence|].
  destruct l2 as [|r l2]; [congruence|].
  cbn [length Nat.eqb orb].
  pose proof (outer_loop_count (p :: l1) (r :: l2) 0 0) as Hc.
  pose proof (outer_loop_total_all_1 (p :: l1) (r :: l2) 0 0 Hall) as Ht.
  destruct (fold_left _ (p :: l1) (0, 0%Z)) as [total count].
  cbn [fst snd] in Hc, Ht. subst count. rewrite Z.add_0_l.
  pose proof (count_positive p l1) as Hpos.
  destruct (Z.of_nat (length (p :: l1)) >? 0)%Z eqn:G.
  - rewrite Ht, Qplus_0_l. field. lra.
  - rewrite Z.gtb_ltb, Z.ltb_ge in G. unfold Qlt in Hpos. simpl in Hpos, G. lia.
Qed.

End Similarity.

(** ** Relative comparator: the returned delta *)

Lemma compare_with_reference_value
    (sqrt : Q -> Q) (current_positions reference_positions : list Position) :
  current_positions <> [] -> reference_positions <> [] ->
  Forall fresh current_positions ->
  forall best,
    max_key (rotation_scores sqrt current_positions reference_positions) = Some best ->
    compare_with_reference sqrt current_positions reference_positions
    = Some (fold_delta ((best - 0) mod 360)).
Proof.
  intros Hc Hr Hf best M.
  unfold compare_with_reference. rewrite M. cbn [bind].
  destruct current_positions as [|first rest]; [congruence|].
  destruct reference_positions as [|r0 rs]; [congruence|].
  inversion Hf as [|? ? Hfirst _]. unfold fresh in Hfirst. rewrite Hfirst.
  cbn [length Nat.eqb orb]. unfold fold_delta.
  now destruct ((best - 0) mod 360 >? 180)%Z.
Qed.

Lemma compare_with_reference_empty_left (sqrt : Q -> Q) (l : list Position) :
  compare_with_reference sqrt [] l = Some 0%Z.
Proof. reflexivity. Qed.

Lemma compare_with_reference_empty_right (sqrt : Q -> Q) (l : list Position) :
  compare_with_reference sqrt l [] = Some 0%Z.
Proof. destruct l; reflexivity. Qed.

(** C8: with an empty current observation or an empty reference set the
    comparator returns delta 0, it does not raise; and the similarity score
    of two sets is 0 when either is empty. *)
Theorem compare_with_reference_empty (sqrt : Q -> Q) (positions : list Position) :
  compare_with_reference sqrt [] positions = Some 0%Z /\
  compare_with_reference sqrt positions [] = Some 0%Z /\
  calculate_position_similarity sqrt [] positions = 0 /\
  calculate_position_similarity sqrt positions [] = 0.
Proof.
  repeat split.
  - apply compare_with_reference_empty_right.
  - destruct positions; reflexivity.
Qed.

(** The comparator returns, and a canonical delta, on the positions of the
    extractor. *)
Lemma compare_with_reference_canonical
    (sqrt : Q -> Q) (current_positions reference_positions : list Position) :
  Forall fresh current_positions ->
  exists d,
    compare_with_reference sqrt current_positions reference_positions = Some d /\
    In d [-90; 0; 90; 180]%Z.
Proof.
  intro Hf.
  destruct current_positions as [|c cs] eqn:Ec.
  { exists 0%Z. split; [reflexivity | simpl; tauto]. }
  destruct reference_positions as [|r rs] eqn:Er.
  { exists 0%Z. split; [reflexivity | simpl; tauto]. }
  destruct (best_rotation_first_highest sqrt (c :: cs) (r :: rs))
    as (before & best & after & M & E & _).
  exists (fold_delta ((best - 0) mod 360)). split.
  - now apply compare_with_reference_value.
  - apply fold_delta_candidate. rewrite E. apply in_elt.
Qed.

Section SelfComparison.

Variable sqrt : Q -> Q.
Hypothesis sqrt_zero : forall q, q == 0 -> sqrt q == 0.
Hypothesis sqrt_nonneg : forall q, 0 <= sqrt q.

Variable positions : list Position.
Hypothesis positions_nonempty : positions <> [].

Lemma candidate_0_similarities (q : Position) :
  In q (apply_rotation_to_positions positions 0) ->
  similarity_of (nearest_distance sqrt q positions) == 1.
Proof.
  unfold apply_rotation_to_positions. intro Hin.
  apply in_map_iff in Hin. destruct Hin as (p & <- & Hp).
  apply similarity_same_place with (p := p); auto.
Qed.

Lemma candidate_0_score : candidate_score sqrt positions positions 0 == 1.
Proof.
  unfold candidate_score.
  apply calculate_position_similarity_all_1;
    [ | exact positions_nonempty | exact candidate_0_similarities].
  unfold apply_rotation_to_positions. intro E. apply map_eq_nil in E.
  now apply positions_nonempty.
Qed.

Lemma candidate_0_highest (r : Z) :
  candidate_score sqrt positions positions r
  <= candidate_score sqrt positions positions 0.
Proof.
  rewrite candidate_0_score. unfold candidate_score.
  now apply calculate_position_similarity_le_1.
Qed.

Lemma candidate_0_is_best :
  max_key (rotation_scores sqrt positions positions) = Some 0%Z.
Proof.
  destruct (best_rotation_first_highest sqrt positions positions)
    as (before & best & after & M & E & Hb & _).
  rewrite M. f_equal.
  destruct before as [|b before].
  - unfold candidates in E. simpl in E. congruence.
  - unfold candidates in E. simpl in E. injection E as <- _.
    specialize (Hb 0%Z (or_introl eq_refl)).
    pose proof (candidate_0_highest best). lra.
Qed.

(** C6: a non-empty anchor set compared with itself: under the candidate 0
    every anchor has similarity 1 and the score is 1, no candidate scores
    higher, 0 is the rotation selected, and the returned delta is 0. *)
Theorem compare_with_itself :
  Forall fresh positions ->
  (forall q, In q (apply_rotation_to_positions positions 0) ->
     similarity_of (nearest_distance sqrt q positions) == 1) /\
  candidate_score sqrt positions positions 0 == 1 /\
  (forall r, In r candidates ->
     candidate_score sqrt positions positions r
     <= candidate_score sqrt positions positions 0) /\
  max_key (rotation_scores sqrt positions positions) = Some 0%Z /\
  compare_with_reference sqrt positions positions = Some 0%Z.
Proof.
  intro Hf. split; [exact candidate_0_similarities|].
  split; [exact candidate_0_score|].
  split; [intros r _; apply candidate_0_highest|].
  split; [exact candidate_0_is_best|].
  rewrite (compare_with_reference_value sqrt positions positions
             positions_nonempty positions_nonempty Hf 0%Z candidate_0_is_best).
  reflexivity.
Qed.

End SelfComparison.

(** ** Detection mode controller *)

Lemma analyze_absolute_position_canonical (positions : list Position) (d : Z) :
  analyze_absolute_position positions = Some d -> In d [-90; 0; 90; 180]%Z.
Proof.
  unfold analyze_absolute_position.
  destruct positions as [|p ps]; [intros [= <-]; simpl; tauto|].
  destruct (py_div _ _) as [ax|]; [|discriminate].
  destruct (py_div _ _) as [ay|]; [|discriminate].
  cbn [bind].
  repeat match goal with
         | |- context [if ?b then _ else _] => destruct b
         end;
    intros [= <-]; simpl; tauto.
Qed.

Lemma get_rotation_from_metadata_canonical (pdf_rotation : Z) :
  In (get_rotation_from_metadata pdf_rotation) [-90; 0; 90; 180]%Z.
Proof.
  unfold get_rotation_from_metadata.
  repeat match goal with
         | |- context [if ?b then _ else _] => destruct b
         end;
    simpl; tauto.
Qed.

Lemma get_rotation_from_metadata_table :
  get_rotation_from_metadata 90 = (-90)%Z /\
  get_rotation_from_metadata 180 = 180%Z /\
  get_rotation_from_metadata 270 = 90%Z /\
  (forall r, r <> 90%Z -> r <> 180%Z -> r <> 270%Z ->
     get_rotation_from_metadata r = 0%Z).
Proof.
  repeat split. intros r H90 H180 H270. unfold get_rotation_from_metadata.
  apply Z.eqb_neq in H90, H180, H270. now rewrite H90, H180, H270.
Qed.

Section Controller.

Variable sqrt : Q -> Q.

(** What the comparative analysis returns, by the page's observation. *)
Lemma comparative_by_observation
    (page : Page) (reference current : list Position) :
  reference <> [] ->
  extract_text_positions page = Some current ->
  analyze_text_orientation_comparative sqrt page (Some reference)
  = match current with
    | [] => Some (get_rotation_from_metadata (rotation_or_0 page))
    | _ => compare_with_reference sqrt current reference
    end.
Proof.
  intros Hr E. unfold analyze_text_orientation_comparative.
  rewrite E. cbn [bind].
  destruct current; [reflexivity|].
  destruct reference as [|r rs]; [congruence | reflexivity].
Qed.

Lemma comparative_canonical
    (page : Page) (reference : option (list Position)) (d : Z) :
  analyze_text_orientation_comparative sqrt page reference = Some d ->
  In d [-90; 0; 90; 180]%Z.
Proof.
  unfold analyze_text_orientation_comparative.
  destruct (extract_text_positions page) as [current|] eqn:E; [|discriminate].
  cbn [bind]. apply extract_text_positions_fresh in E.
  destruct current as [|c cs].
  - intros [= <-]. apply get_rotation_from_metadata_canonical.
  - destruct reference as [[|r rs]|];
      try apply analyze_absolute_position_canonical.
    destruct (compare_with_reference_canonical sqrt (c :: cs) (r :: rs) E)
      as (d' & -> & Hd').
    now intros [= <-].
Qed.

Lemma absolute_branch_canonical (page : Page) (d : Z) :
  (positions <- extract_text_positions page ;;
   analyze_absolute_position positions) = Some d ->
  In d [-90; 0; 90; 180]%Z.
Proof.
  destruct (extract_text_positions page) as [positions|]; [|discriminate].
  apply analyze_absolute_position_canonical.
Qed.

Lemma bootstrap_or_compare_canonical (g g' : Globals) (page : Page) (d : Z) :
  bootstrap_or_compare sqrt g page = (Some d, g') -> In d [-90; 0; 90; 180]%Z.
Proof.
  unfold bootstrap_or_compare.
  destruct (_reference_positions g) as [reference|].
  - intros [= H _]. now apply comparative_canonical in H.
  - destruct (extract_text_positions page) as [[|p ps]|] eqn:E.
    + cbn [bind]. intros [= <- _]. simpl. tauto.
    + intros [= <- _]. simpl. tauto.
    + discriminate.
Qed.

(** C7: whatever the detection method and the module-level variables, a
    delta returned by [analyze_text_orientation] is one of -90, 0, 90, 180. *)
Theorem analyze_text_orientation_canonical
    (g g' : Globals) (page : Page) (d : Z) :
  analyze_text_orientation sqrt g page = (Some d, g') ->
  In d [-90; 0; 90; 180]%Z.
Proof.
  unfold analyze_text_orientation.
  destruct (_detection_method g =? 1)%Z.
  - intros [= H _]. now apply absolute_branch_canonical in H.
  - destruct (_detection_method g =? 2)%Z; apply bootstrap_or_compare_canonical.
Qed.

(** C10: with a non-empty reference and a page without qualifying text, the
    comparative analysis returns the delta of the rotation metadata alone:
    -90 for 90, 180 for 180, 90 for 270 and 0 for any other value; so the
    result is not 0 when the metadata is 90, 180 or 270. *)
Theorem comparative_empty_observation
    (page : Page) (reference : list Position) :
  reference <> [] ->
  extract_text_positions page = Some [] ->
  analyze_text_orientation_comparative sqrt page (Some reference)
    = Some (get_rotation_from_metadata (rotation_or_0 page)) /\
  get_rotation_from_metadata 90 = (-90)%Z /\
  get_rotation_from_metadata 180 = 180%Z /\
  get_rotation_from_metadata 270 = 90%Z /\
  (forall r, r <> 90%Z -> r <> 180%Z -> r <> 270%Z ->
     get_rotation_from_metadata r = 0%Z) /\
  (In (rotation_or_0 page) [90; 180; 270]%Z ->
   analyze_text_orientation_comparative sqrt page (Some reference) <> Some 0%Z).
Proof.
  intros Hr E.
  pose proof (comparative_by_observation page reference [] Hr E) as H.
  split; [exact H|].
  destruct get_rotation_from_metadata_table as (T90 & T180 & T270 & T0).
  repeat split; try assumption.
  rewrite H. simpl.
  intros [<-|[<-|[<-|[]]]]; discriminate.
Qed.

Lemma not_method_1 (g : Globals) (page : Page) :
  _detection_method g <> 1%Z ->
  analyze_text_orientation sqrt g page = bootstrap_or_compare sqrt g page.
Proof.
  intro H. unfold analyze_text_orientation.
  apply Z.eqb_neq in H. rewrite H.
  now destruct (_detection_method g =? 2)%Z.
Qed.

(** Once a reference is held the calls leave the module-level variables
    as they are, and each is a comparative analysis. *)
Lemma analyze_pages_with_reference
    (g : Globals) (reference : list Position) (pages : list Page) :
  _detection_method g <> 1%Z ->
  _reference_positions g = Some reference ->
  analyze_pages sqrt g pages
  = (map (fun page =>
            analyze_text_orientation_comparative sqrt page (Some reference)) pages,
     g).
Proof.
  intros Hm Hr. induction pages as [|page rest IH]; [reflexivity|].
  cbn [analyze_pages map]. rewrite (not_method_1 g page Hm).
  unfold bootstrap_or_compare. rewrite Hr. now rewrite IH.
Qed.

(** C4, as the code has it: in a method other than 1 (RELATIVE is 2, AUTO is
    any other value), a page with an empty observation met while the
    reference is [None] is decided by the absolute classifier; a page with a
    non-empty observation met then is returned 0 and becomes the reference;
    and while a non-empty reference is held the module-level variables do
    not change, and every page is decided by the relative comparator against
    that reference when its observation is not empty, and from its rotation
    metadata when it is. *)
Theorem relative_mode_bootstrap (g : Globals) :
  _detection_method g <> 1%Z ->
  (forall page,
     _reference_positions g = None ->
     extract_text_positions page = Some [] ->
     fst (analyze_text_orientation sqrt g page) = analyze_absolute_position []) /\
  (forall page p ps,
     _reference_positions g = None ->
     extract_text_positions page = Some (p :: ps) ->
     analyze_text_orientation sqrt g page
     = (Some 0%Z, mkGlobals (Some (p :: ps)) (_detection_method g))) /\
  (forall reference pages,
     _reference_positions g = Some reference -> reference <> [] ->
     snd (analyze_pages sqrt g pages) = g /\
     forall i page current,
       nth_error pages i = Some page ->
       extract_text_positions page = Some current ->
       nth_error (fst (analyze_pages sqrt g pages)) i
       = Some match current with
              | [] => Some (get_rotation_from_metadata (rotation_or_0 page))
              | _ => compare_with_reference sqrt current reference
              end).
Proof.
  intro Hm. split; [|split].
  - intros page Hr E. rewrite (not_method_1 g page Hm).
    unfold bootstrap_or_compare. now rewrite Hr, !E.
  - intros page p ps Hr E. rewrite (not_method_1 g page Hm).
    unfold bootstrap_or_compare. now rewrite Hr, E.
  - intros reference pages Hr Hne.
    rewrite (analyze_pages_with_reference g reference pages Hm Hr).
    split; [reflexivity|]. intros i page current Hi E. cbn [fst].
    rewrite nth_error_map, Hi. cbn [option_map]. f_equal.
    now apply comparative_by_observation.
Qed.

End Controller.

(** ** The model at the sample pages *)

Lemma sqrt6_zero (q : Q) : q == 0 -> sqrt6 q == 0.
Proof.
  unfold Qeq, sqrt6. simpl. intro H.
  assert (E : Qnum q = 0%Z) by lia. rewrite E. reflexivity.
Qed.

Lemma sqrt6_nonneg (q : Q) : 0 <= sqrt6 q.
Proof.
  unfold Qle, sqrt6. simpl. rewrite Z.mul_1_r. apply Z.sqrt_nonneg.
Qed.

Example extract_sample_page :
  extract_text_positions sample_page = Some sample_reference.
Proof. reflexivity. Qed.

Example absolute_upper_left :
  analyze_absolute_position sample_reference = Some 0%Z.
Proof. reflexivity. Qed.

Example absolute_lower_right :
  (positions <- extract_text_positions lower_right_page ;;
   analyze_absolute_position positions) = Some 180%Z.
Proof. reflexivity. Qed.

Example relative_run :
  analyze_pages sqrt6 initial_globals [sample_page; lower_right_page; sample_page]
  = ([Some 0%Z; Some 180%Z; Some 0%Z], mkGlobals (Some sample_reference) 3).
Proof. vm_compute. reflexivity. Qed.

(** ** The theorems at the sample pages *)

Lemma compare_with_reference_first_best_witness :
  rotation_scores sqrt6 sample_reference sample_reference
    = map (fun r => (r, candidate_score sqrt6 sample_reference sample_reference r))
        candidates /\
  exists before best after,
    candidates = before ++ best :: after /\
    (forall r, In r before ->
       candidate_score sqrt6 sample_reference sample_reference r
       < candidate_score sqrt6 sample_reference sample_reference best) /\
    (forall r, In r after ->
       candidate_score sqrt6 sample_reference sample_reference r
       <= candidate_score sqrt6 sample_reference sample_reference best) /\
    compare_with_reference sqrt6 sample_reference sample_reference
      = Some (fold_delta ((best - 0) mod 360)) /\
    fold_delta ((best - 0) mod 360) = (if (best =? 270)%Z then -90 else best)%Z.
Proof.
  apply (compare_with_reference_first_best sqrt6 sample_reference sample_reference).
  - discriminate.
  - discriminate.
  - repeat constructor.
Defined.

Lemma compare_with_itself_witness :
  compare_with_reference sqrt6 sample_reference sample_reference = Some 0%Z.
Proof.
  apply (compare_with_itself sqrt6 sqrt6_zero sqrt6_nonneg sample_reference).
  - discriminate.
  - repeat constructor.
Defined.

Lemma analyze_text_orientation_canonical_witness :
  analyze_text_orientation sqrt6 (mkGlobals (Some sample_reference) 2)
    lower_right_page
  = (Some 180%Z, mkGlobals (Some sample_reference) 2) /\
  In 180%Z [-90; 0; 90; 180]%Z.
Proof.
  assert (H : analyze_text_orientation sqrt6 (mkGlobals (Some sample_reference) 2)
                lower_right_page
              = (Some 180%Z, mkGlobals (Some sample_reference) 2))
    by (vm_compute; reflexivity).
  split; [exact H|].
  exact (analyze_text_orientation_canonical sqrt6 _ _ _ _ H).
Defined.

Lemma extract_text_positions_noise_filter_witness :
  map text sample_reference
  = filter (fun t => (2 <? length t)%nat)
      (map (fun span => strip (span_text span)) (page_spans sample_page)) /\
  (forall p, In p sample_reference -> (length (text p) > 2)%nat) /\
  (forall span, In span (page_spans sample_page) ->
     (length (strip (span_text span)) <= 2)%nat ->
     ~ In (strip (span_text span)) (map text sample_reference)).
Proof.
  apply (extract_text_positions_noise_filter sample_page sample_reference).
  reflexivity.
Defined.

Lemma comparative_empty_observation_witness :
  analyze_text_orientation_comparative sqrt6 blank_page_90 (Some sample_reference)
  = Some (-90)%Z.
Proof.
  apply (comparative_empty_observation sqrt6 blank_page_90 sample_reference).
  - discriminate.
  - reflexivity.
Defined.

Lemma relative_mode_bootstrap_witness :
  fst (analyze_text_orientation sqrt6 (mkGlobals None 2) blank_page)
  = analyze_absolute_position [].
Proof.
  apply (relative_mode_bootstrap sqrt6 (mkGlobals None 2)).
  - discriminate.
  - reflexivity.
  - reflexivity.
Defined.

(** C4 as the spec states it fails: in RELATIVE mode the reference is
    captured from the first page, and the second page, which has no text and
    rotation metadata 90, is returned -90, the delta of its metadata, where
    the relative comparator returns 0 on its empty observation. *)
Lemma relative_mode_counterexample :
  extract_text_positions blank_page_90 = Some [] /\
  analyze_pages sqrt6 (mkGlobals None 2) [sample_page; blank_page_90]
  = ([Some 0%Z; Some (-90)%Z], mkGlobals (Some sample_reference) 2) /\
  compare_with_reference sqrt6 [] sample_reference = Some 0%Z.
Proof. repeat split. Qed.

(** The reference after a failed capture is the empty list, not [None], so
    the later pages do not capture one: they are decided by the absolute
    classifier, or from the metadata when they have no text. *)
Lemma empty_capture_sticks (sqrt : Q -> Q) (g : Globals) (page : Page) :
  _detection_method g <> 1%Z ->
  _reference_positions g = None ->
  extract_text_positions page = Some [] ->
  snd (analyze_text_orientation sqrt g page)
  = mkGlobals (Some []) (_detection_method g).
Proof.
  intros Hm Hr E. rewrite (not_method_1 sqrt g page Hm).
  unfold bootstrap_or_compare. now rewrite Hr, E.
Qed.

Example capture_not_retried :
  analyze_pages sqrt6 (mkGlobals None 2) [blank_page; sample_page; lower_right_page]
  = ([Some 0%Z; Some 0%Z; Some 180%Z], mkGlobals (Some []) 2).
Proof. vm_compute. reflexivity. Qed.

(** * Further properties *)

(** ** Coordinate transformer *)

Lemma transform_inside (x0 y0 x1 y1 W H : Q) (rotation : Z) :
  0 <= x0 -> x0 <= x1 -> x1 <= W -> 0 <= y0 -> y0 <= y1 -> y1 <= H ->
  inside (transform_coordinates_to_original (x0, y0, x1, y1) W H rotation)
         (fst (unrotated_size W H rotation)) (snd (unrotated_size W H rotation)).
Proof.
  unfold inside, transform_coordinates_to_original, unrotated_size.
  intros H1 H2 H3 H4 H5 H6.
  destruct (rotation =? 0)%Z eqn:E0.
  { apply Z.eqb_eq in E0. subst rotation. simpl. repeat split; assumption. }
  destruct (rotation =? 90)%Z; [simpl; repeat split; lra|].
  destruct (rotation =? 180)%Z eqn:E180.
  { apply Z.eqb_eq in E180. subst rotation. simpl. repeat split; lra. }
  destruct (rotation =? 270)%Z; simpl; repeat split; lra.
Qed.

(** A well ordered box on the displayed page is taken to a well ordered box
    on the unrotated page, whatever the rotation value. *)
Theorem transform_keeps_inside (b : BBox) (W H : Q) (rotation : Z) :
  inside b W H ->
  inside (transform_coordinates_to_original b W H rotation)
         (fst (unrotated_size W H rotation)) (snd (unrotated_size W H rotation)).
Proof.
  destruct b as [[[x0 y0] x1] y1].
  intros (H1 & H2 & H3 & H4 & H5 & H6).
  now apply transform_inside.
Qed.

Lemma transform_keeps_inside_witness :
  inside (transform_coordinates_to_original (752, 72, 770, 300) 842 595 90)
         (fst (unrotated_size 842 595 90)) (snd (unrotated_size 842 595 90)).
Proof.
  apply (transform_keeps_inside (752, 72, 770, 300) 842 595 90).
  unfold inside. repeat split; lra.
Defined.

(** ** Position extractor *)

Lemma kept_test (span : Span) :
  negb (length (strip (span_text span)) =? 0)%nat
  && (2 <? length (strip (span_text span)))%nat = kept span.
Proof. apply keep_test. Qed.

Section ExtractorLoops.

Variables page_width page_height original_width original_height : Q.
Variable pdf_rotation : Z.

Let zero_size := Qeq_bool original_width 0 || Qeq_bool original_height 0.
Let position := span_position page_width page_height original_width
                  original_height pdf_rotation.

(** The innermost loop in closed form: it raises when a kept span meets a
    zero width or height, and otherwise appends the positions of the kept
    spans. *)
Lemma extract_spans_closed_form (spans : list Span) :
  forall acc,
    extract_spans page_width page_height original_width original_height
      pdf_rotation spans acc
    = if zero_size && existsb kept spans then None
      else Some (acc ++ map position (filter kept spans)).
Proof.
  subst zero_size position.
  induction spans as [|span rest IH]; intro acc; cbn [extract_spans].
  - rewrite andb_false_r. cbn. now rewrite app_nil_r.
  - rewrite kept_test. cbn [existsb filter].
    destruct (kept span) eqn:K.
    + cbn [orb map]. unfold span_position at 1, py_div.
      destruct (transform_coordinates_to_original _ _ _ _) as [[[b0 b1] b2] b3] eqn:T.
      destruct (Qeq_bool original_width 0); [reflexivity|].
      destruct (Qeq_bool original_height 0); [reflexivity|].
      cbn [bind orb andb]. rewrite IH. cbn [orb andb].
      rewrite <- app_assoc. reflexivity.
    + cbn [orb]. apply IH.
Qed.

Lemma extract_lines_closed_form (lines : list Line) :
  forall acc,
    extract_lines page_width page_height original_width original_height
      pdf_rotation lines acc
    = if zero_size && existsb kept (concat lines) then None
      else Some (acc ++ map position (filter kept (concat lines))).
Proof.
  induction lines as [|line rest IH]; intro acc; cbn [extract_lines concat].
  - rewrite andb_false_r. cbn. now rewrite app_nil_r.
  - rewrite extract_spans_closed_form, existsb_app, filter_app, map_app.
    destruct zero_size; [|cbn [andb bind]; rewrite IH; cbn [andb];
                          now rewrite app_assoc].
    cbn [andb]. destruct (existsb kept line); [reflexivity|].
    cbn [bind orb]. rewrite IH. cbn [andb].
    destruct (existsb kept (concat rest)); [reflexivity|].
    now rewrite app_assoc.
Qed.

Lemma extract_blocks_closed_form (bs : list Block) :
  forall acc,
    extract_blocks page_width page_height original_width original_height
      pdf_rotation bs acc
    = if zero_size && existsb kept (flat_map block_spans bs) then None
      else Some (acc ++ map position (filter kept (flat_map block_spans bs))).
Proof.
  induction bs as [|[lines|] rest IH]; intro acc;
    cbn [extract_blocks flat_map block_spans].
  - rewrite andb_false_r. cbn. now rewrite app_nil_r.
  - rewrite extract_lines_closed_form, existsb_app, filter_app, map_app.
    destruct zero_size; [|cbn [andb bind]; rewrite IH; cbn [andb];
                          now rewrite app_assoc].
    cbn [andb]. destruct (existsb kept (concat lines)); [reflexivity|].
    cbn [bind orb]. rewrite IH. cbn [andb].
    destruct (existsb kept (flat_map block_spans rest)); [reflexivity|].
    now rewrite app_assoc.
  - cbn [app]. apply IH.
Qed.

End ExtractorLoops.

(** The extractor in closed form. *)
Lemma extract_text_positions_closed_form (page : Page) :
  extract_text_positions page
  = match blocks page with
    | [] => Some []
    | _ =>
        match page_rotation page with
        | None => None
        | Some r =>
            if degenerate page && existsb kept (page_spans page) then None
            else Some (map (span_position (rect_width page) (rect_height page)
                              (fst (original_size page)) (snd (original_size page)) r)
                         (filter kept (page_spans page)))
        end
    end.
Proof.
  unfold extract_text_positions, degenerate, original_size, page_spans.
  destruct (blocks page) as [|b bs]; [reflexivity|].
  destruct (page_rotation page) as [r|]; [|reflexivity]. cbn [bind].
  destruct (mediabox page) as [[w h]|]; cbn [fst snd];
    now rewrite extract_blocks_closed_form.
Qed.

(** The extractor returns one position for each kept span, in span order:
    its trimmed text, its box transformed to the unrotated page, and the
    centre of that box divided by the original width and height. *)
Theorem extract_text_positions_positions (page : Page) (ps : list Position) :
  extract_text_positions page = Some ps ->
  ps = map (span_position (rect_width page) (rect_height page)
              (fst (original_size page)) (snd (original_size page))
              (rotation_or_0 page))
         (filter kept (page_spans page)).
Proof.
  rewrite extract_text_positions_closed_form. unfold page_spans, rotation_or_0.
  destruct (blocks page) as [|b bs]; [now intros [= <-]|].
  destruct (page_rotation page) as [r|]; [|discriminate].
  destruct (_ && _); [discriminate|]. now intros [= <-].
Qed.

Lemma extract_text_positions_positions_witness :
  sample_reference
  = map (span_position (rect_width sample_page) (rect_height sample_page)
           (fst (original_size sample_page)) (snd (original_size sample_page))
           (rotation_or_0 sample_page))
      (filter kept (page_spans sample_page)).
Proof.
  apply (extract_text_positions_positions sample_page sample_reference).
  reflexivity.
Defined.

(** The extractor raises exactly when the page has blocks and either its
    rotation cannot be read or a kept span meets a zero original width or
    height; a page without blocks never raises. *)
Theorem extract_text_positions_raises (page : Page) :
  extract_text_positions page = None <->
  blocks page <> [] /\
  (page_rotation page = None \/
   (degenerate page = true /\ exists span, In span (page_spans page) /\ kept span = true)).
Proof.
  rewrite extract_text_positions_closed_form.
  destruct (blocks page) as [|b bs] eqn:B.
  { split; [discriminate | intros [H _]; congruence]. }
  destruct (page_rotation page) as [r|].
  - destruct (degenerate page) eqn:D; cbn [andb].
    + destruct (existsb kept (page_spans page)) eqn:K.
      * split; [|reflexivity]. intros _. split; [discriminate|]. right.
        split; [reflexivity|]. now apply existsb_exists.
      * split; [discriminate|]. intros [_ [H|[_ H]]]; [discriminate|].
        apply existsb_exists in H. congruence.
    + split; [discriminate|]. intros [_ [H|[H _]]]; discriminate.
  - split; [|reflexivity]. intros _. split; [discriminate | now left].
Qed.

Lemma centre_normalized (a c w w' : Q) :
  w == w' -> 0 < w' -> 0 <= a -> a <= c -> c <= w' ->
  0 <= (a + c) / 2 / w <= 1.
Proof.
  intros E Hw Ha Hac Hc. rewrite E.
  assert (H2 : (a + c) / 2 == (a + c) * (1 # 2)) by (unfold Qdiv; reflexivity).
  split.
  - apply Qle_shift_div_l; [exact Hw|]. rewrite H2. lra.
  - apply Qle_shift_div_r; [exact Hw|]. rewrite H2. lra.
Qed.

Lemma unrotated_size_positive (W H : Q) (r : Z) :
  0 < W -> 0 < H ->
  0 < fst (unrotated_size W H r) /\ 0 < snd (unrotated_size W H r).
Proof.
  intros HW HH. unfold unrotated_size.
  destruct (_ || _); simpl; now split.
Qed.

(** Normalization range: when the original size of the page is the size of
    the displayed page unrotated, and every span box is a well ordered box on
    the displayed page, every extracted position has its two normalized
    coordinates between 0 and 1. *)
Theorem extract_text_positions_normalized (page : Page) (ps : list Position) :
  0 < rect_width page -> 0 < rect_height page ->
  fst (original_size page)
    == fst (unrotated_size (rect_width page) (rect_height page) (rotation_or_0 page)) ->
  snd (original_size page)
    == snd (unrotated_size (rect_width page) (rect_height page) (rotation_or_0 page)) ->
  (forall span, In span (page_spans page) ->
     inside (span_bbox span) (rect_width page) (rect_height page)) ->
  extract_text_positions page = Some ps ->
  forall p, In p ps ->
    0 <= normalized_x p <= 1 /\ 0 <= normalized_y p <= 1.
Proof.
  intros HW HH Ew Eh Hin E p Hp.
  rewrite extract_text_positions_closed_form in E. unfold rotation_or_0 in *.
  destruct (blocks page) as [|b bs] eqn:B; [injection E as <-; destruct Hp|].
  destruct (page_rotation page) as [r|]; [|discriminate].
  destruct (_ && _); [discriminate|]. injection E as <-.
  apply in_map_iff in Hp. destruct Hp as (span & <- & Hs).
  apply filter_In in Hs. destruct Hs as [Hs _].
  specialize (Hin span Hs).
  destruct (span_bbox span) as [[[x0 y0] x1] y1] eqn:Eb.
  destruct Hin as (I1 & I2 & I3 & I4 & I5 & I6).
  pose proof (transform_inside x0 y0 x1 y1 _ _ r I1 I2 I3 I4 I5 I6) as Hi.
  destruct (unrotated_size_positive (rect_width page) (rect_height page)
              r HW HH) as [Pw Ph].
  unfold span_position. rewrite Eb.
  destruct (transform_coordinates_to_original _ _ _ _) as [[[b0 b1] b2] b3].
  destruct Hi as (H1 & H2 & H3 & H4 & H5 & H6). cbn [normalized_x normalized_y].
  split; eapply centre_normalized; eassumption.
Qed.

Lemma extract_text_positions_normalized_witness :
  0 <= 372 # 1190 <= 1 /\ 0 <= 162 # 1684 <= 1.
Proof.
  apply (extract_text_positions_normalized sample_page sample_reference)
    with (p := mkPosition hello (372 # 1190) (162 # 1684)
                 (Some (72, 72, 300, 90)) None).
  - reflexivity.
  - reflexivity.
  - reflexivity.
  - reflexivity.
  - simpl. intros span [<-|[<-|[]]]; unfold inside; simpl; repeat split; lra.
  - reflexivity.
  - left. reflexivity.
Defined.

(** ** Similarity score *)

Section SimilarityFacts.

Variable sqrt : Q -> Q.
Hypothesis sqrt_zero : forall q, q == 0 -> sqrt q == 0.
Hypothesis sqrt_nonneg : forall q, 0 <= sqrt q.

Lemma outer_loop_total_ge (l1 l2 : list Position) (t : Q) (c : Z) :
  t <= fst (fold_left
              (fun acc pos1 =>
                 let '(total_similarity, compared_count) := acc in
                 let similarity := similarity_of (nearest_distance sqrt pos1 l2) in
                 (total_similarity + similarity, (compared_count + 1)%Z))
              l1 (t, c)).
Proof.
  revert t c. induction l1 as [|p l1 IH]; intros t c.
  - cbn. lra.
  - cbn [fold_left]. eapply Qle_trans; [|apply IH].
    pose proof (similarity_bounds sqrt sqrt_nonneg p l2) as [H0 _]. lra.
Qed.

(** The score of any two lists of positions lies between 0 and 1. *)
Theorem calculate_position_similarity_range (l1 l2 : list Position) :
  0 <= calculate_position_similarity sqrt l1 l2 <= 1.
Proof.
  split; [|now apply calculate_position_similarity_le_1].
  unfold calculate_position_similarity.
  destruct l1 as [|p l1]; [simpl; lra|].
  destruct l2 as [|r l2]; [simpl; lra|].
  cbn [length Nat.eqb orb].
  pose proof (outer_loop_count sqrt (p :: l1) (r :: l2) 0 0) as Hc.
  pose proof (outer_loop_total_ge (p :: l1) (r :: l2) 0 0) as Ht.
  destruct (fold_left _ (p :: l1) (0, 0%Z)) as [total count].
  cbn [fst snd] in Hc, Ht. subst count. rewrite Z.add_0_l.
  pose proof (count_positive p l1) as Hpos.
  destruct (Z.of_nat (length (p :: l1)) >? 0)%Z; [|lra].
  apply Qle_shift_div_l; [exact Hpos | lra].
Qed.

Lemma distance_same_place_eq (p q : Position) :
  normalized_x p == normalized_x q -> normalized_y p == normalized_y q ->
  distance sqrt p q == 0.
Proof.
  intros Hx Hy. unfold distance. apply sqrt_zero. rewrite Hx, Hy.
  simpl. ring.
Qed.

Lemma similarity_same_place_eq (q p : Position) (l : list Position) :
  In p l ->
  normalized_x q == normalized_x p -> normalized_y q == normalized_y p ->
  similarity_of (nearest_distance sqrt q l) == 1.
Proof.
  intros Hin Hx Hy.
  destruct (nearest_distance_least sqrt sqrt_nonneg q l) as (d & -> & H0 & Hall).
  { intros ->. destruct Hin. }
  simpl. apply py_max_0_at_0.
  specialize (Hall p Hin). rewrite (distance_same_place_eq q p Hx Hy) in Hall. lra.
Qed.

(** The score is 1 when every position of the first list lies exactly where
    some position of the second list lies, whatever their texts. *)
Theorem calculate_position_similarity_covered (l1 l2 : list Position) :
  l1 <> [] ->
  (forall q, In q l1 ->
     exists p, In p l2 /\
               normalized_x q == normalized_x p /\ normalized_y q == normalized_y p) ->
  calculate_position_similarity sqrt l1 l2 == 1.
Proof.
  intros H1 Hcov.
  assert (H2 : l2 <> []).
  { destruct l1 as [|q l1]; [congruence|].
    destruct (Hcov q (or_introl eq_refl)) as (p & Hp & _).
    intros ->. destruct Hp. }
  apply calculate_position_similarity_all_1; [exact H1 | exact H2 |].
  intros q Hq. destruct (Hcov q Hq) as (p & Hp & Hx & Hy).
  now apply similarity_same_place_eq with (p := p).
Qed.

End SimilarityFacts.

Lemma calculate_position_similarity_range_witness :
  0 <= calculate_position_similarity sqrt6
         (apply_rotation_to_positions sample_reference 90) sample_reference <= 1.
Proof.
  apply (calculate_position_similarity_range sqrt6 sqrt6_nonneg).
Defined.

Lemma calculate_position_similarity_covered_witness :
  calculate_position_similarity sqrt6 sample_reference sample_reference == 1.
Proof.
  apply (calculate_position_similarity_covered sqrt6 sqrt6_zero sqrt6_nonneg).
  - discriminate.
  - intros q Hq. exists q. split; [exact Hq | split; reflexivity].
Defined.

(** ** Relative comparator *)

(** Whatever keys the positions carry, also with a ['current_rotation'], a
    delta that the comparator returns is above -180 and at most 180. *)
Theorem compare_with_reference_range
    (sqrt : Q -> Q) (current_positions reference_positions : list Position)
    (d : Z) :
  compare_with_reference sqrt current_positions reference_positions = Some d ->
  (-180 < d <= 180)%Z.
Proof.
  destruct current_positions as [|c cs]; [intros [= <-]; lia|].
  destruct reference_positions as [|r rs]; [intros [= <-]; lia|].
  unfold compare_with_reference. cbn [length Nat.eqb orb].
  destruct (max_key (rotation_scores sqrt (c :: cs) (r :: rs))) as [best|];
    [|discriminate].
  cbn [bind].
  set (cr := match current_rotation c with Some x => x | None => 0%Z end).
  pose proof (Z.mod_pos_bound (best - cr) 360 ltac:(lia)) as Hm.
  destruct ((best - cr) mod 360 >? 180)%Z eqn:G; intros [= <-].
  - lia.
  - rewrite Z.gtb_ltb, Z.ltb_ge in G. lia.
Qed.

Lemma compare_with_reference_range_witness :
  (-180 < 0 <= 180)%Z.
Proof.
  apply (compare_with_reference_range sqrt6 sample_reference sample_reference 0).
  vm_compute. reflexivity.
Defined.

(** ** Module-level variables *)

Section GlobalsFacts.

Variable sqrt : Q -> Q.

Lemma bootstrap_keeps_method (g : Globals) (page : Page) :
  _detection_method (snd (bootstrap_or_compare sqrt g page))
  = _detection_method g.
Proof.
  unfold bootstrap_or_compare.
  destruct (_reference_positions g); [reflexivity|].
  destruct (extract_text_positions page) as [[|p ps]|]; reflexivity.
Qed.

Lemma analyze_keeps_method (g : Globals) (page : Page) :
  _detection_method (snd (analyze_text_orientation sqrt g page))
  = _detection_method g.
Proof.
  unfold analyze_text_orientation.
  destruct (_detection_method g =? 1)%Z; [reflexivity|].
  destruct (_detection_method g =? 2)%Z; apply bootstrap_keeps_method.
Qed.

Lemma analyze_keeps_reference (g : Globals) (page : Page) (reference : list Position) :
  _reference_positions g = Some reference ->
  snd (analyze_text_orientation sqrt g page) = g.
Proof.
  intro Hr. unfold analyze_text_orientation, bootstrap_or_compare. rewrite Hr.
  destruct (_detection_method g =? 1)%Z; [reflexivity|].
  destruct (_detection_method g =? 2)%Z; reflexivity.
Qed.

Lemma analyze_method_1 (g : Globals) (page : Page) :
  _detection_method g = 1%Z ->
  snd (analyze_text_orientation sqrt g page) = g.
Proof.
  intro Hm. unfold analyze_text_orientation. now rewrite Hm.
Qed.

Lemma analyze_pages_cons (g : Globals) (page : Page) (rest : list Page) :
  snd (analyze_pages sqrt g (page :: rest))
  = snd (analyze_pages sqrt (snd (analyze_text_orientation sqrt g page)) rest).
Proof.
  cbn [analyze_pages].
  destruct (analyze_text_orientation sqrt g page) as [result g'].
  cbn [snd]. now destruct (analyze_pages sqrt g' rest).
Qed.

Lemma analyze_pages_keeps_reference
    (pages : list Page) (g : Globals) (reference : list Position) :
  _reference_positions g = Some reference ->
  snd (analyze_pages sqrt g pages) = g.
Proof.
  intro Hr. induction pages as [|page rest IH]; [reflexivity|].
  now rewrite analyze_pages_cons, (analyze_keeps_reference g page reference Hr).
Qed.

(** Whatever pages are analysed, the detection method is never changed; a
    reference, once set, is never changed, even an empty one; and in
    method 1 no reference is ever set. *)
Theorem analyze_pages_invariants (g : Globals) (pages : list Page) :
  _detection_method (snd (analyze_pages sqrt g pages)) = _detection_method g /\
  (forall reference,
     _reference_positions g = Some reference ->
     snd (analyze_pages sqrt g pages) = g) /\
  (_detection_method g = 1%Z -> snd (analyze_pages sqrt g pages) = g).
Proof.
  revert g. induction pages as [|page rest IH]; intro g.
  - repeat split.
  - rewrite analyze_pages_cons.
    destruct (IH (snd (analyze_text_orientation sqrt g page))) as (Im & Ir & I1).
    split; [|split].
    + rewrite Im. apply analyze_keeps_method.
    + intros reference Hr.
      rewrite (analyze_keeps_reference g page reference Hr) in *.
      now apply (Ir reference).
    + intro Hm. rewrite (analyze_method_1 g page Hm) in *. now apply I1.
Qed.

(** In a method other than 1, starting without a reference, the reference
    after any pages is the observation of the first page whose extraction
    returned, whether that observation is empty or not; it is [None] only if
    every extraction raised. *)
Lemma analyze_pages_reference (g : Globals) (pages : list Page) :
  _detection_method g <> 1%Z ->
  _reference_positions g = None ->
  _reference_positions (snd (analyze_pages sqrt g pages)) = first_observation pages.
Proof.
  intros Hm Hr. revert g Hm Hr.
  induction pages as [|page rest IH]; intros g Hm Hr; [exact Hr|].
  rewrite analyze_pages_cons. cbn [first_observation].
  rewrite (not_method_1 sqrt g page Hm). unfold bootstrap_or_compare. rewrite Hr.
  destruct (extract_text_positions page) as [observation|] eqn:E.
  - destruct observation as [|p ps]; cbn [snd];
      now rewrite (analyze_pages_keeps_reference rest (mkGlobals (Some _) _) _ eq_refl).
  - cbn [snd]. now apply IH.
Qed.

End GlobalsFacts.

Lemma analyze_pages_reference_witness :
  _reference_positions
    (snd (analyze_pages sqrt6 (reset_globals 2)
            [broken_page; blank_page; sample_page]))
  = first_observation [broken_page; blank_page; sample_page].
Proof.
  apply (analyze_pages_reference sqrt6 (reset_globals 2)).
  - discriminate.
  - reflexivity.
Defined.

(** ** Rotation applicator *)

Lemma rotation_step_sound (r d : Z) :
  In d [-90; 0; 90; 180]%Z -> d <> 0%Z ->
  In d [-90; 90; 180]%Z /\
  (0 <= (r + d) mod 360 < 360)%Z /\
  (In r candidates -> In ((r + d) mod 360)%Z candidates /\ (r + d) mod 360 <> r)%Z.
Proof.
  intros Hd H0. split; [simpl in *; intuition congruence|].
  split; [apply Z.mod_pos_bound; lia|].
  unfold candidates. simpl in Hd |- *.
  intros [<-|[<-|[<-|[<-|[]]]]];
    destruct Hd as [<-|[<-|[<-|[<-|[]]]]]; try congruence;
    vm_compute; split; try tauto; discriminate.
Qed.

Section ApplicatorFacts.

Variable sqrt : Q -> Q.

Lemma analyze_canonical_delta (g g' : Globals) (page : Page) (d : Z) :
  analyze_text_orientation sqrt g page = (Some d, g') ->
  In d [-90; 0; 90; 180]%Z.
Proof.
  unfold analyze_text_orientation.
  destruct (_detection_method g =? 1)%Z.
  - intros [= H _]. now apply absolute_branch_canonical in H.
  - destruct (_detection_method g =? 2)%Z; apply bootstrap_or_compare_canonical.
Qed.

Lemma correct_page_sound (g : Globals) (page : Page) :
  sound_outcome page (fst (correct_page sqrt g page)).
Proof.
  unfold sound_outcome, correct_page. intros v.
  destruct (page_rotation page) as [r|]; [|discriminate].
  destruct (analyze_text_orientation sqrt g page) as [[d|] g'] eqn:A;
    [|discriminate].
  apply analyze_canonical_delta in A.
  destruct (d =? 0)%Z eqn:E0; cbn [negb fst]; [discriminate|].
  intros [= <-]. apply Z.eqb_neq in E0.
  destruct (rotation_step_sound r d A E0) as (Hd & Hv & Hc).
  exists r, d. repeat split; try assumption; try apply Hv; now apply Hc.
Qed.

Lemma correct_pages_cons (g : Globals) (page : Page) (rest : list Page) (c : bool) :
  correct_pages sqrt g (page :: rest) c
  = let outcome := fst (correct_page sqrt g page) in
    let r := correct_pages sqrt (snd (correct_page sqrt g page)) rest
               (is_rotated outcome || c) in
    (outcome :: fst (fst r), snd (fst r), snd r).
Proof.
  cbn [correct_pages]. destruct (correct_page sqrt g page) as [outcome g'].
  cbn [fst snd].
  replace (match outcome with Rotated _ => true | _ => c end)
    with (is_rotated outcome || c) by now destruct outcome.
  now destruct (correct_pages sqrt g' rest (is_rotated outcome || c)) as [[os c'] g''].
Qed.

Lemma correct_pages_sound (pages : list Page) :
  forall g c, Forall2 sound_outcome pages (fst (fst (correct_pages sqrt g pages c))).
Proof.
  induction pages as [|page rest IH]; intros g c; [constructor|].
  rewrite correct_pages_cons. cbn [fst snd]. constructor.
  - apply correct_page_sound.
  - apply IH.
Qed.

Lemma correct_pages_flag (pages : list Page) :
  forall g c,
    snd (fst (correct_pages sqrt g pages c))
    = existsb is_rotated (fst (fst (correct_pages sqrt g pages c))) || c.
Proof.
  induction pages as [|page rest IH]; intros g c; [reflexivity|].
  rewrite correct_pages_cons. cbn [fst snd existsb]. rewrite IH.
  now destruct (is_rotated _), (existsb _ _), c.
Qed.

(** Every page of an opened document gets an outcome, also after a page
    that raised; and every call of [set_rotation] is sound: its argument
    lies in [0, 360), and for a page rotated by 0, 90, 180 or 270 it is
    again such a rotation and not the one the page has. *)
Theorem detect_and_correct_rotation_sound
    (g : Globals) (pages : list Page) (saved : bool) :
  length (snd (fst (detect_and_correct_rotation sqrt g (Some pages) saved)))
  = length pages /\
  forall i page outcome,
    nth_error pages i = Some page ->
    nth_error (snd (fst (detect_and_correct_rotation sqrt g (Some pages) saved))) i
    = Some outcome ->
    sound_outcome page outcome.
Proof.
  unfold detect_and_correct_rotation.
  pose proof (correct_pages_sound pages g false) as H.
  destruct (correct_pages sqrt g pages false) as [[outcomes c] g'].
  cbn [fst snd] in H.
  assert (E : snd (fst (if saved then (c, outcomes, g') else (false, outcomes, g')))
              = outcomes) by now destruct saved.
  rewrite E. clear E. split.
  - symmetry. now apply (Forall2_length H).
  - induction H as [|page0 o0 ps os H0 H IH]; intros i page outcome Hp Ho.
    + destruct i; discriminate.
    + destruct i as [|i]; cbn in Hp, Ho.
      * injection Hp as <-. injection Ho as <-. exact H0.
      * now apply (IH i).
Qed.

(** The returned flag is [True] exactly when the document opened, some page
    was rotated and the document was saved. *)
Theorem detect_and_correct_rotation_flag
    (g : Globals) (opened : option (list Page)) (saved : bool) :
  fst (fst (detect_and_correct_rotation sqrt g opened saved)) = true <->
  opened <> None /\ saved = true /\
  exists v, In (Rotated v)
              (snd (fst (detect_and_correct_rotation sqrt g opened saved))).
Proof.
  unfold detect_and_correct_rotation.
  destruct opened as [pages|].
  2: { cbn. split; [discriminate | intros [H _]; congruence]. }
  pose proof (correct_pages_flag pages g false) as F.
  destruct (correct_pages sqrt g pages false) as [[outcomes c] g'].
  cbn [fst snd] in F. rewrite orb_false_r in F. subst c.
  assert (R : existsb is_rotated outcomes = true <-> exists v, In (Rotated v) outcomes).
  { rewrite existsb_exists. split.
    - intros ([v| |] & Hin & Hr); try discriminate. now exists v.
    - intros (v & Hin). now exists (Rotated v). }
  destruct saved; cbn [fst snd].
  - rewrite R. split; [intro H; repeat split; [discriminate | exact H] | now intros (_ & _ & H)].
  - split; [discriminate | intros (_ & H & _); discriminate].
Qed.

Lemma correct_pages_app (l1 l2 : list Page) :
  forall g c,
    correct_pages sqrt g (l1 ++ l2) c
    = let r1 := correct_pages sqrt g l1 c in
      let r2 := correct_pages sqrt (snd r1) l2 (snd (fst r1)) in
      (fst (fst r1) ++ fst (fst r2), snd (fst r2), snd r2).
Proof.
  induction l1 as [|page rest IH]; intros g c.
  - cbn. now destruct (correct_pages sqrt g l2 c) as [[os c'] g'].
  - cbn [app]. rewrite !correct_pages_cons. cbn zeta. rewrite IH. reflexivity.
Qed.

Lemma correct_pages_length (pages : list Page) (g : Globals) (c : bool) :
  length (fst (fst (correct_pages sqrt g pages c))) = length pages.
Proof.
  symmetry. apply (Forall2_length (correct_pages_sound pages g c)).
Qed.

Lemma failing_page_outcome (g : Globals) (page : Page) :
  page_rotation page = None \/ extract_text_positions page = None ->
  correct_page sqrt g page = (PageError, g).
Proof.
  unfold correct_page. intros [Hr|He]; [now rewrite Hr|].
  destruct (page_rotation page) as [r|]; [|reflexivity].
  unfold analyze_text_orientation, bootstrap_or_compare,
    analyze_text_orientation_comparative.
  rewrite He. cbn [bind].
  destruct (_detection_method g =? 1)%Z; [reflexivity|].
  destruct (_detection_method g =? 2)%Z;
    now destruct (_reference_positions g).
Qed.

(** A page whose rotation cannot be read, or whose extraction raises, is
    skipped and changes nothing else: the other pages get the outcomes, and
    the loop ends with the flag and the module-level variables, that they
    get without it. *)
Theorem failing_page_is_skipped
    (g : Globals) (before after : list Page) (page : Page) (c : bool) :
  page_rotation page = None \/ extract_text_positions page = None ->
  let without := correct_pages sqrt g (before ++ after) c in
  correct_pages sqrt g (before ++ page :: after) c
  = (firstn (length before) (fst (fst without)) ++
       PageError :: skipn (length before) (fst (fst without)),
     snd (fst without), snd without).
Proof.
  intro Hr. cbn zeta. rewrite !correct_pages_app. cbn zeta.
  rewrite correct_pages_cons.
  assert (E : forall g1, correct_page sqrt g1 page = (PageError, g1))
    by (intro g1; now apply failing_page_outcome).
  rewrite !E. cbn [fst snd is_rotated orb].
  pose proof (correct_pages_length before g c) as L.
  destruct (correct_pages sqrt g before c) as [[o1 c1] g1]. cbn [fst snd] in *.
  destruct (correct_pages sqrt g1 after c1) as [[o2 c2] g2]. cbn [fst snd].
  rewrite <- L, firstn_app, skipn_app, firstn_all, skipn_all, Nat.sub_diag.
  cbn [firstn skipn app]. now rewrite app_nil_r.
Qed.

(** Once a non-empty reference is held, a page without qualifying text whose
    rotation is 90, 180 or 270 is set to rotation 0, and one whose rotation
    is 0 is left alone. *)
Theorem blank_page_set_upright
    (g : Globals) (page : Page) (reference : list Position) (r : Z) :
  _detection_method g <> 1%Z ->
  _reference_positions g = Some reference -> reference <> [] ->
  extract_text_positions page = Some [] ->
  page_rotation page = Some r -> In r candidates ->
  correct_page sqrt g page
  = (if (r =? 0)%Z then NotNeeded else Rotated 0, g).
Proof.
  intros Hm Hg Hne E Hr Hc. unfold correct_page. rewrite Hr.
  rewrite (not_method_1 sqrt g page Hm). unfold bootstrap_or_compare. rewrite Hg.
  rewrite (comparative_by_observation sqrt page reference [] Hne E).
  unfold rotation_or_0. rewrite Hr.
  unfold candidates in Hc. simpl in Hc.
  destruct Hc as [<-|[<-|[<-|[<-|[]]]]]; reflexivity.
Qed.

End ApplicatorFacts.

Lemma detect_and_correct_rotation_sound_witness :
  sound_outcome lower_right_page (Rotated 180).
Proof.
  apply (proj2 (detect_and_correct_rotation_sound sqrt6
                  (mkGlobals (Some sample_reference) 2)
                  [blank_page_90; lower_right_page] true) 1%nat);
    reflexivity.
Defined.

Lemma failing_page_is_skipped_witness :
  correct_pages sqrt6 (reset_globals 3)
    ([sample_page] ++ broken_page :: [lower_right_page]) false
  = ([NotNeeded; PageError; Rotated 180], true, mkGlobals (Some sample_reference) 3).
Proof.
  rewrite (failing_page_is_skipped sqrt6 (reset_globals 3)
             [sample_page] [lower_right_page] broken_page false
             (or_introl eq_refl)).
  vm_compute. reflexivity.
Defined.

Lemma blank_page_set_upright_witness :
  correct_page sqrt6 (mkGlobals (Some sample_reference) 2) blank_page_90
  = (Rotated 0, mkGlobals (Some sample_reference) 2).
Proof.
  apply (blank_page_set_upright sqrt6 (mkGlobals (Some sample_reference) 2)
           blank_page_90 sample_reference 90).
  - discriminate.
  - reflexivity.
  - discriminate.
  - reflexivity.
  - reflexivity.
  - unfold candidates. simpl. tauto.
Defined.

(** ** Choice of the detection method *)

Lemma pystr_eqb_eq (a b : pystr) : pystr_eqb a b = true <-> a = b.
Proof.
  unfold pystr_eqb. destruct (list_eq_dec N.eq_dec a b); split; congruence.
Qed.

Lemma pystr_eqb_neq (a b : pystr) : pystr_eqb a b = false <-> a <> b.
Proof.
  unfold pystr_eqb. destruct (list_eq_dec N.eq_dec a b); split; congruence.
Qed.

(** The menu returns a method exactly when, after answers that are none of
    the three choices, an answer selects it: a line that trims to 1, 2 or 3,
    or an interrupt, which selects 3.  So a returned method is 1, 2 or 3. *)
Theorem choose_detection_method_selects (answers : list Answer) (m : Z) :
  choose_detection_method answers = Some m <->
  exists before answer after,
    answers = before ++ answer :: after /\
    Forall rejected before /\ selects answer m.
Proof.
  split.
  - induction answers as [|[line|] rest IH]; cbn [choose_detection_method];
      [discriminate| |].
    + destruct (pystr_eqb (strip line) [49%N]) eqn:E1.
      { apply pystr_eqb_eq in E1. intros [= <-].
        exists [], (Typed line), rest. repeat split; [constructor|].
        right. exists line. tauto. }
      destruct (pystr_eqb (strip line) [50%N]) eqn:E2.
      { apply pystr_eqb_eq in E2. intros [= <-].
        exists [], (Typed line), rest. repeat split; [constructor|].
        right. exists line. tauto. }
      destruct (pystr_eqb (strip line) [51%N]) eqn:E3.
      { apply pystr_eqb_eq in E3. intros [= <-].
        exists [], (Typed line), rest. repeat split; [constructor|].
        right. exists line. tauto. }
      apply pystr_eqb_neq in E1, E2, E3.
      intro H. destruct (IH H) as (before & answer & after & -> & Hb & Hs).
      exists (Typed line :: before), answer, after.
      repeat split; [|exact Hs]. constructor; [|exact Hb].
      exists line. tauto.
    + intros [= <-]. exists [], Interrupted, rest.
      repeat split; [constructor|]. now left.
  - intros (before & answer & after & -> & Hb & Hs).
    induction Hb as [|a before (line & -> & N1 & N2 & N3) Hb IH];
      cbn [app choose_detection_method].
    + destruct Hs as [[-> ->]|(line & -> & [[E ->]|[[E ->]|[E ->]]])];
        [reflexivity| | |]; rewrite E; reflexivity.
    + apply pystr_eqb_neq in N1, N2, N3. now rewrite N1, N2, N3.
Qed.

(** ** The reference after a document *)

Section ReferenceAfterDocument.

Variable sqrt : Q -> Q.

Lemma correct_page_globals (g : Globals) (page : Page) :
  snd (correct_page sqrt g page)
  = if readable page then snd (analyze_text_orientation sqrt g page) else g.
Proof.
  unfold correct_page, readable.
  destruct (page_rotation page) as [r|]; [|reflexivity].
  destruct (analyze_text_orientation sqrt g page) as [[d|] g']; [|reflexivity].
  now destruct (negb (d =? 0)%Z).
Qed.

(** The page loop leaves the module-level variables as the analysis of its
    readable pages, in page order, leaves them. *)
Lemma correct_pages_globals (pages : list Page) :
  forall g c,
    snd (correct_pages sqrt g pages c)
    = snd (analyze_pages sqrt g (filter readable pages)).
Proof.
  induction pages as [|page rest IH]; intros g c; [reflexivity|].
  rewrite correct_pages_cons. cbn [snd filter].
  rewrite IH, correct_page_globals.
  destruct (readable page); [|reflexivity].
  now rewrite analyze_pages_cons.
Qed.

(** In a method other than 1, a document processed without a reference
    leaves as the reference the observation of its first page whose rotation
    can be read and whose extraction returns, whether the document is saved
    or not; a document that cannot be opened leaves none. *)
Theorem detect_and_correct_rotation_reference
    (g : Globals) (opened : option (list Page)) (saved : bool) :
  _detection_method g <> 1%Z ->
  _reference_positions g = None ->
  _reference_positions (snd (detect_and_correct_rotation sqrt g opened saved))
  = match opened with
    | Some pages => first_observation (filter readable pages)
    | None => None
    end.
Proof.
  intros Hm Hr. unfold detect_and_correct_rotation.
  destruct opened as [pages|]; [|exact Hr].
  pose proof (correct_pages_globals pages g false) as G.
  destruct (correct_pages sqrt g pages false) as [[outcomes c] g'].
  cbn [snd] in G.
  assert (E : snd (if saved then (c, outcomes, g') else (false, outcomes, g')) = g')
    by now destruct saved.
  rewrite E, G. now apply analyze_pages_reference.
Qed.

End ReferenceAfterDocument.

Lemma detect_and_correct_rotation_reference_witness :
  _reference_positions
    (snd (detect_and_correct_rotation sqrt6 (reset_globals 2)
            (Some [broken_page; sample_page; lower_right_page]) true))
  = Some sample_reference.
Proof.
  rewrite (detect_and_correct_rotation_reference sqrt6 (reset_globals 2)
             (Some [broken_page; sample_page; lower_right_page]) true).
  - reflexivity.
  - discriminate.
  - reflexivity.
Defined.
